(** * Amass: the [dns] sub-command and the WhoisXML data source

    A shallow embedding of [cmd/amass/dns.go] and
    [services/sources/whoisxml.go], and the properties of the concurrent
    resolution pipeline that the design document states about them.

    Conventions of the embedding.
    - Go strings are [string], sequences of bytes; what the standard
      library does to a string that is not ASCII is taken from the class
      [Unicode]; slices are [list]; [len] and loop counters
      are [nat] (they only count up to the length of a slice); instants and
      [time.Duration] values are [Z] nanoseconds.
    - A [*requests.DNSRequest] that may be [nil] is an
      [option DNSRequest].
    - The resolver pool ([sys.Pool()]) is an interface whose methods read
      and update a state of their own: the class [Pool] below.  Every
      theorem holds for every pool, hence for every sequence of replies a
      goroutine can observe from the real one.
    - A goroutine body is a computation in the state monad [M] over a
      [World]: the pool, the admission semaphore, the answer channel and
      the trace of the observable events, in program order. *)

From Stdlib Require Import ZArith Lia Ascii.
From stdpp Require Import base list strings.

(** ** The [requests] and [resolvers] declarations the commands use *)

Module Requests.

(** [requests.DNSAnswer]: the fields read by [dns.go]. *)
Record DNSAnswer := {
  ans_Type : Z;
  ans_Data : string;
}.

(** [requests.DNSRequest]: the fields read or written by [dns.go]. *)
Record DNSRequest := {
  Name : string;
  Domain : string;
  Records : list DNSAnswer;
}.

Definition set_Domain (d : string) (r : DNSRequest) : DNSRequest :=
  {| Name := Name r; Domain := d; Records := Records r |}.

Definition set_Records (a : list DNSAnswer) (r : DNSRequest) : DNSRequest :=
  {| Name := Name r; Domain := Domain r; Records := a |}.

End Requests.

Module Resolvers.
Import Requests.

(** [resolvers.WildcardTypeNone], [WildcardTypeStatic],
    [WildcardTypeDynamic]. *)
Inductive WildcardType := WildcardTypeNone | WildcardTypeStatic | WildcardTypeDynamic.

Definition isDynamic (t : WildcardType) : bool :=
  match t with WildcardTypeDynamic => true | _ => false end.

(** [resolvers.PriorityLow] and its siblings. *)
Inductive Priority := PriorityLow | PriorityHigh | PriorityCritical.

(** What a callee can learn from a [context.Context]: whether it has been
    cancelled. *)
Definition Context := bool.

(** The methods of the resolver pool called by [processDNSRequest].  Of
    the three results of [Resolve] the source binds the answers and the
    error and drops the middle one, so the middle one is left out. *)
Class Pool (S : Type) := {
  SubdomainToDomain : S -> string -> string;
  GetWildcardType : S -> Context -> DNSRequest -> WildcardType * S;
  Resolve : S -> Context -> string -> string -> Priority
            -> (list DNSAnswer * option string) * S;
  MatchesWildcard : S -> Context -> DNSRequest -> bool * S;
}.

End Resolvers.

(** ** [cmd/amass/dns.go] *)

Module Dns.
Import Requests Resolvers.

(** [config.Config]: the settings that [dns.go] reads or writes and that
    matter to the resolutions.  [MaxDNSQueries] is also the number of
    tickets of [cfg.SemMaxDNSQueries]. *)
Record Config := {
  Blacklist : list string;
  MaxDNSQueries : Z;
  ProvidedNames : list string;
  RecordTypes : list string;
  Timeout : Z;
}.

(** The method [cfg.Blacklisted] of the [config] package. *)
Class ConfigMethods := {
  Blacklisted : Config -> string -> bool;
}.

(** [dnsArgs]: the command-line settings copied into the configuration.
    A [stringset.Set] is given by the slice its [Slice()] returns. *)
Record dnsArgs := {
  argBlacklist : list string;
  argMaxDNSQueries : Z;
  argNames : list string;
  argRecordTypes : list string;
  argTimeout : Z;
}.

(** The [unicode] package, as far as [strings.ToUpper] needs it:
    [strings.Map(unicode.ToUpper, s)], the string [s] mapped rune by rune
    to upper case, with every byte that is not part of a valid UTF-8
    encoding replaced by the replacement character.  Its tables are not
    part of the command; the mapping is taken as given. *)
Class Unicode := {
  MapToUpper : string -> string;
}.

(** A string is a sequence of bytes.  It is ASCII when every byte is
    below [utf8.RuneSelf]. *)
Fixpoint isASCII (s : string) : bool :=
  match s with
  | EmptyString => true
  | String c s' => Nat.ltb (nat_of_ascii c) 128 && isASCII s'
  end.

(** The letters [a] to [z] moved to [A] to [Z]. *)
Definition upperAscii (c : ascii) : ascii :=
  let n := nat_of_ascii c in
  if Nat.leb 97 n && Nat.leb n 122 then ascii_of_nat (n - 32) else c.

Fixpoint upperBytes (s : string) : string :=
  match s with
  | EmptyString => EmptyString
  | String c s' => String (upperAscii c) (upperBytes s')
  end.

(** [strings.ToUpper]: in a string that is all ASCII the letters [a] to
    [z] are replaced by [A] to [Z]; any other string goes through the case
    mapping of the [unicode] package. *)
Definition ToUpper {HU : Unicode} (s : string) : string :=
  if isASCII s then upperBytes s else MapToUpper s.

Section WithUnicode.
Context {HU : Unicode}.

(** The body of the loop of lines 371-380 at index [i]; [rt] is
    [conf.RecordTypes]. *)
Definition upperAt (rt : list string) (i : nat) : list string :=
  let qtype := default "" (rt !! i) in
  let rt := <[i := ToUpper qtype]> rt in
  if String.eqb (default "" (rt !! i)) "CNAME" then
    let tmp := default "" (rt !! 0) in
    let rt := <[0 := default "" (rt !! i)]> rt in
    <[i := tmp]> rt
  else rt.

(** What one iteration of that loop comes to, for the types [placed] so
    far: the next type is upper-cased and put behind them, and ["CNAME"]
    changes places with the first of them. *)
Definition place (placed : list string) (qtype : string) : list string :=
  let t := ToUpper qtype in
  if String.eqb t "CNAME" then
    match placed with
    | [] => [t]
    | t0 :: placed' => t :: placed' ++ [t0]
    end
  else placed ++ [t].

(** Lines 368-383. *)
Definition overrideRecordTypes (types : list string) : list string :=
  if Nat.ltb 0 (length types) then foldl upperAt types (seq 0 (length types))
  else ["A"].

(** [dnsArgs.OverrideConfig], lines 349-394, on the fields of [Config]. *)
Definition OverrideConfig (d : dnsArgs) (conf : Config) : Config :=
  {| Blacklist := if Nat.ltb 0 (length (argBlacklist d)) then argBlacklist d
                  else Blacklist conf;
     MaxDNSQueries := if Z.ltb 0 (argMaxDNSQueries d) then argMaxDNSQueries d
                      else MaxDNSQueries conf;
     ProvidedNames := if Nat.ltb 0 (length (argNames d)) then argNames d
                      else ProvidedNames conf;
     RecordTypes := overrideRecordTypes (argRecordTypes d);
     Timeout := if Z.ltb 0 (argTimeout d) then argTimeout d else Timeout conf |}.

End WithUnicode.

(** What a run lets an observer see, in program order. *)
Inductive Event :=
| EvAcquire                                          (* SemMaxDNSQueries.Acquire(1) *)
| EvRelease                                          (* SemMaxDNSQueries.Release(1) *)
| EvGetWildcardType (req : DNSRequest)
| EvResolve (name qtype : string) (prio : Priority)
| EvMatchesWildcard (req : DNSRequest)
| EvSend (v : option DNSRequest).                    (* c <- v *)

Definition isResolve (e : Event) : bool :=
  match e with EvResolve _ _ _ => true | _ => false end.
Definition isSend (e : Event) : bool :=
  match e with EvSend _ => true | _ => false end.
Definition isRelease (e : Event) : bool :=
  match e with EvRelease => true | _ => false end.
Definition isAcquire (e : Event) : bool :=
  match e with EvAcquire => true | _ => false end.
(** The calls served by the resolver pool. *)
Definition isPoolCall (e : Event) : bool :=
  match e with
  | EvGetWildcardType _ | EvResolve _ _ _ | EvMatchesWildcard _ => true
  | _ => false
  end.

(** The number of events of a kind in a trace. *)
Definition count (p : Event -> bool) (tr : list Event) : nat :=
  length (filter (fun e => p e = true) tr).

(** The record types of the [Resolve] calls of a trace, in order. *)
Definition resolved (tr : list Event) : list string :=
  omap (fun e => match e with EvResolve _ t _ => Some t | _ => None end) tr.

(** *** [processDNSAnswers], lines 245-304 *)

(** The cases of the [select] of line 255, with the value received. *)
Inductive Signal :=
| SigDone                                  (* <-done *)
| SigTick                                  (* <-t.C *)
| SigActive                                (* <-activeChan *)
| SigAnswer (req : option DNSRequest).     (* req := <-answers *)

(** The local variables of [processDNSAnswers].  [printed] lists the
    requests for which a line has been written to the terminal; how the
    line is laid out is not modelled. *)
Record Detector := {
  first : bool;
  active : bool;
  i : nat;
  printed : list DNSRequest;
}.

Definition set_active (b : bool) (d : Detector) : Detector :=
  {| first := first d; active := b; i := i d; printed := printed d |}.

(** Lines 247-248 and the initialisation of the loop. *)
Definition detector0 : Detector :=
  {| first := true; active := true; i := 0; printed := [] |}.

(** How an iteration of a loop ends: with the next iteration, with a
    [return] out of the function, or in a run-time panic. *)
Inductive Control (A : Type) :=
| Continue (a : A)
| Return (a : A)
| Panic (a : A).
Arguments Continue {A} a.
Arguments Return {A} a.
Arguments Panic {A} a.

(** [dns.TypeNS]. *)
Definition TypeNS : Z := 2.

Fixpoint hasComma (s : string) : bool :=
  match s with
  | EmptyString => false
  | String c s' => Ascii.eqb c "," || hasComma s'
  end.

(** Line 295 indexes [strings.Split(rec.Data, ",")] at 1 for the records
    with [uint16(rec.Type) == dns.TypeNS]: out of range, and a panic, when
    the data holds no comma. *)
Definition splitPanics (rec : DNSAnswer) : bool :=
  Z.eqb (ans_Type rec mod 65536) TypeNS && negb (hasComma (ans_Data rec)).

(** The guard of line 273. *)
Definition printable (req : option DNSRequest) : list DNSRequest :=
  match req with
  | Some r => if negb (Nat.eqb (length (Records r)) 0) then [r] else []
  | None => []
  end.

(** Lines 274-300 end in a panic for the answer received. *)
Definition printPanics (req : option DNSRequest) : bool :=
  existsb (fun r => existsb splitPanics (Records r)) (printable req).

(** One [select], lines 255-302. *)
Definition selectCase (d : Detector) (s : Signal) : Control Detector :=
  match s with
  | SigDone => Return d
  | SigTick =>
      if first d then Continue d
      else if active d then Continue (set_active false d)
      else Return d
  | SigActive => Continue (set_active true d)
  | SigAnswer req =>
      let d := {| first := false; active := true; i := Datatypes.S (i d);
                  printed := printed d |} in
      if printPanics req then Panic d
      else Continue {| first := false; active := true; i := i d;
                       printed := printed d ++ printable req |}
  end.

Definition isAnswer (s : Signal) : bool :=
  match s with SigAnswer _ => true | _ => false end.

(** Where [processDNSAnswers] stands once the cases [sigs] have been
    offered to it. *)
Inductive Outcome :=
| Waiting (d : Detector)                          (* blocked in the [select] *)
| Counted (d : Detector) (rest : list Signal)     (* the loop ended: [i = l] *)
| Returned (d : Detector) (rest : list Signal)    (* a [return] was taken *)
| Panicked (d : Detector) (rest : list Signal).   (* the command has crashed *)

(** The [for] loop of line 254, for [l] expected answers. *)
Fixpoint answersLoop (l : nat) (d : Detector) (sigs : list Signal) : Outcome :=
  match sigs with
  | [] => if Nat.ltb (i d) l then Waiting d else Counted d []
  | s :: rest =>
      if Nat.ltb (i d) l then
        match selectCase d s with
        | Continue d' => answersLoop l d' rest
        | Return d' => Returned d' rest
        | Panic d' => Panicked d' rest
        end
      else Counted d sigs
  end.

Definition processDNSAnswers (cfg : Config) (sigs : list Signal) : Outcome :=
  answersLoop (length (ProvidedNames cfg)) detector0 sigs.

Section WithPool.
Context {S : Type} {HP : Pool S} {HC : ConfigMethods}.

(** The state a goroutine acts on. [held] counts the tickets of
    [cfg.SemMaxDNSQueries] that are out; [answers] is the buffer of the
    answer channel, oldest first; [cancelled] tells whether [cancel()]
    has been called on the context of the run. *)
Record World := {
  pool : S;
  held : Z;
  answers : list (option DNSRequest);
  cancelled : Context;
  trace : list Event;
}.

Definition M (A : Type) : Type := World -> A * World.

#[global] Instance M_ret : MRet M := fun A a w => (a, w).
#[global] Instance M_bind : MBind M :=
  fun A B f m w => let '(a, w') := m w in f a w'.

Definition emit (e : Event) (w : World) : World :=
  {| pool := pool w; held := held w; answers := answers w;
     cancelled := cancelled w; trace := trace w ++ [e] |}.

Definition withPool (s : S) (w : World) : World :=
  {| pool := s; held := held w; answers := answers w;
     cancelled := cancelled w; trace := trace w |}.

(** Modelled from the spec: the semaphore [cfg.SemMaxDNSQueries], whose
    code is not among the source files, is a counting resource of
    [MaxDNSQueries] tickets; [Acquire(1)] waits for a free ticket and takes
    it, [Release(1)] gives one back.  This is [Acquire(1)] once a ticket is
    free. *)
Definition acquire : M unit := fun w =>
  (tt, emit EvAcquire
         {| pool := pool w; held := held w + 1; answers := answers w;
            cancelled := cancelled w; trace := trace w |}).

(** [cfg.SemMaxDNSQueries.Release(1)]. *)
Definition release : M unit := fun w =>
  (tt, emit EvRelease
         {| pool := pool w; held := held w - 1; answers := answers w;
            cancelled := cancelled w; trace := trace w |}).

(** [c <- v]. *)
Definition send (v : option DNSRequest) : M unit := fun w =>
  (tt, emit (EvSend v)
         {| pool := pool w; held := held w; answers := answers w ++ [v];
            cancelled := cancelled w; trace := trace w |}).

(** [cancel()]. *)
Definition cancel : M unit := fun w =>
  (tt, {| pool := pool w; held := held w; answers := answers w;
          cancelled := true; trace := trace w |}).

Definition subdomainToDomain (name : string) : M string := fun w =>
  (SubdomainToDomain (pool w) name, w).

Definition getWildcardType (req : DNSRequest) : M WildcardType := fun w =>
  let '(t, s) := GetWildcardType (pool w) (cancelled w) req in
  (t, emit (EvGetWildcardType req) (withPool s w)).

Definition resolve (name qtype : string) (prio : Priority)
  : M (list DNSAnswer * option string) := fun w =>
  let '(r, s) := Resolve (pool w) (cancelled w) name qtype prio in
  (r, emit (EvResolve name qtype prio) (withPool s w)).

Definition matchesWildcard (req : DNSRequest) : M bool := fun w =>
  let '(b, s) := MatchesWildcard (pool w) (cancelled w) req in
  (b, emit (EvMatchesWildcard req) (withPool s w)).

(** [w'] is [w] after the events [evs], none of which touches the
    semaphore, the answer channel or the context. *)
Definition extends (w w' : World) (evs : list Event) : Prop :=
  held w' = held w /\ answers w' = answers w /\ cancelled w' = cancelled w
  /\ trace w' = trace w ++ evs.

(** The end of every path of [processDNSRequest]: the send of [v], then
    the deferred release. *)
Definition finish (v : option DNSRequest) (w : World) : World :=
  (release (send v w).2).2.

(** Go's [a || b]: [b] is evaluated only when [a] is false. *)
Definition orElse (a : bool) (b : M bool) : M bool :=
  if a then mret true else b.

(** [defer d] at the head of a function whose body is [body]. *)
Definition defer {A} (d : M unit) (body : M A) : M A :=
  a ← body; d;; mret a.

(** The loop of lines 224-234: one [Resolve] per record type, the
    answers kept when [err == nil], and [break] after the type
    ["CNAME"] once the accumulated answers are not empty. *)
Fixpoint resolveLoop (name : string) (ts : list string) (acc : list DNSAnswer)
  : M (list DNSAnswer) :=
  match ts with
  | [] => mret acc
  | t :: ts' =>
      '(a, err) ← resolve name t PriorityLow;
      let acc' := match err with None => acc ++ a | Some _ => acc end in
      if String.eqb t "CNAME" && negb (Nat.eqb (length acc') 0)
      then mret acc'
      else resolveLoop name ts' acc'
  end.

(** [processDNSRequest], lines 204-243. *)
Definition processDNSRequest (req : option DNSRequest) (cfg : Config) : M unit :=
  defer release
    match req with
    | None => send None
    | Some req =>
        if String.eqb (Name req) "" then send None
        else
          d ← subdomainToDomain (Name req);
          let req := set_Domain d req in
          if String.eqb (Domain req) "" then send None
          else
            reject ← orElse (Blacklisted cfg (Name req))
                            (t ← getWildcardType req; mret (isDynamic t));
            if (reject : bool) then send None
            else
              a ← resolveLoop (Name req) (RecordTypes cfg) [];
              let req := set_Records a req in
              drop ← orElse (Nat.eqb (length (Records req)) 0)
                            (matchesWildcard req);
              if (drop : bool) then send None else send (Some req)
    end.

(** *** [performResolutions], lines 165-202 *)

(** Where the goroutine of lines 188-199 stands. *)
Inductive Admission :=
| AtSelect        (* about to evaluate the [select] for the next name *)
| InAcquire       (* in the [default] case, waiting for a ticket *)
| Left.           (* returned *)

(** The state of a run. *)
Record Run := {
  world : World;
  names : list string;          (* the names still to be ranged over *)
  admission : Admission;
  spawned : list DNSRequest;    (* [go processDNSRequest] started, not yet ended *)
  done : bool;                  (* [done] is closed *)
  detector : Detector;
  returned : bool;              (* [processDNSAnswers] took a [return] *)
  crashed : bool;               (* [processDNSAnswers] ran into a panic *)
}.

(** The capacity of the answer channel, line 169. *)
Definition answersCap : Z := 100000.

Definition start (cfg : Config) (s : S) : Run :=
  {| world := {| pool := s; held := 0; answers := []; cancelled := false; trace := [] |};
     names := ProvidedNames cfg;
     admission := AtSelect;
     spawned := [];
     done := false;
     detector := detector0;
     returned := false;
     crashed := false |}.

(** The command is over: [processDNSAnswers] took a [return] or left its
    loop, so that [performResolutions] returned, or the panic ended the
    process. *)
Definition over (cfg : Config) (r : Run) : bool :=
  returned r || crashed r
  || negb (Nat.ltb (i (detector r)) (length (ProvidedNames cfg))).

(** What the scheduler can let happen next. *)
Inductive Sched :=
| TimerFires        (* the timer of line 176 runs [close(done)] *)
| AdmitNext         (* the goroutine of line 188 moves on *)
| Work (k : nat)    (* the [k]-th started [processDNSRequest] runs to its end *)
| OnDone            (* [processDNSAnswers] takes [case <-done] *)
| OnTick            (* ... [case <-t.C] *)
| OnActive          (* ... [case <-activeChan]: a pulse sent by the bus *)
| OnAnswer.         (* ... [case req := <-answers] *)

Definition withWorld (w : World) (r : Run) : Run :=
  {| world := w; names := names r; admission := admission r; spawned := spawned r;
     done := done r; detector := detector r; returned := returned r;
     crashed := crashed r |}.

Definition withAdmission (a : Admission) (r : Run) : Run :=
  {| world := world r; names := names r; admission := a; spawned := spawned r;
     done := done r; detector := detector r; returned := returned r;
     crashed := crashed r |}.

(** [cfg.SemMaxDNSQueries.Acquire(1)] returned; line 196 starts the
    goroutine for [name]. *)
Definition launch (name : string) (rest : list string) (r : Run) : Run :=
  {| world := (acquire (world r)).2; names := rest; admission := AtSelect;
     spawned := spawned r ++ [{| Name := name; Domain := ""; Records := [] |}];
     done := done r; detector := detector r; returned := returned r;
     crashed := crashed r |}.

(** Modelled from the spec: a ticket of the semaphore is free while fewer
    than [MaxDNSQueries] are out. *)
Definition ticketFree (cfg : Config) (r : Run) : bool :=
  Z.ltb (held (world r)) (MaxDNSQueries cfg).

(** The goroutine of lines 188-199. *)
Definition admissionStep (cfg : Config) (r : Run) : Run :=
  match admission r, names r with
  | Left, _ => r
  | AtSelect, [] => withAdmission Left r
  | AtSelect, name :: rest =>
      if done r then withAdmission Left (withWorld (cancel (world r)).2 r)
      else if ticketFree cfg r then launch name rest r
      else withAdmission InAcquire r
  | InAcquire, name :: rest =>
      if ticketFree cfg r then launch name rest r else r
  | InAcquire, [] => r
  end.

(** One case of the [select] of [processDNSAnswers] is taken. *)
Definition deliver (s : Signal) (r : Run) : Run :=
  match selectCase (detector r) s with
  | Continue d =>
      {| world := world r; names := names r; admission := admission r;
         spawned := spawned r; done := done r; detector := d;
         returned := false; crashed := false |}
  | Return d =>
      {| world := world r; names := names r; admission := admission r;
         spawned := spawned r; done := done r; detector := d;
         returned := true; crashed := false |}
  | Panic d =>
      {| world := world r; names := names r; admission := admission r;
         spawned := spawned r; done := done r; detector := d;
         returned := false; crashed := true |}
  end.

(** One step of the run.  Once the command is over nothing happens any
    more.  A started [processDNSRequest] is run in one piece, at a point
    where its send on the answer channel can go through. *)
Definition step (cfg : Config) (r : Run) (e : Sched) : Run :=
  if over cfg r then r
  else
    match e with
    | TimerFires =>
        if Z.ltb 0 (Timeout cfg) then
          {| world := world r; names := names r; admission := admission r;
             spawned := spawned r; done := true; detector := detector r;
             returned := returned r; crashed := crashed r |}
        else r
    | AdmitNext => admissionStep cfg r
    | Work k =>
        match spawned r !! k with
        | Some req =>
            if Z.ltb (Z.of_nat (length (answers (world r)))) answersCap then
              {| world := (processDNSRequest (Some req) cfg (world r)).2;
                 names := names r; admission := admission r;
                 spawned := delete k (spawned r);
                 done := done r; detector := detector r;
                 returned := returned r; crashed := crashed r |}
            else r
        | None => r
        end
    | OnDone => if done r then deliver SigDone r else r
    | OnTick => deliver SigTick r
    | OnActive => deliver SigActive r
    | OnAnswer =>
        match answers (world r) with
        | v :: rest =>
            let w := world r in
            deliver (SigAnswer v)
              (withWorld {| pool := pool w; held := held w; answers := rest;
                            cancelled := cancelled w; trace := trace w |} r)
        | [] => r
        end
    end.

(** [performResolutions] under the schedule [sch]. *)
Definition performResolutions (cfg : Config) (s : S) (sch : list Sched) : Run :=
  foldl (step cfg) (start cfg s) sch.

(** The books of a run: the tickets, the answers and the names add up, and
    the context is cancelled only after the timer has closed [done]. *)
Definition balanced (cfg : Config) (r : Run) : Prop :=
  let tr := trace (world r) in
  count isSend tr = count isRelease tr
  /\ count isAcquire tr = count isSend tr + length (spawned r)
  /\ i (detector r) + length (answers (world r)) = count isSend tr
  /\ held (world r) = Z.of_nat (length (spawned r))
  /\ count isAcquire tr + length (names r) = length (ProvidedNames cfg)
  /\ (cancelled (world r) = true -> done r = true)
  /\ (done r = true -> (0 < Timeout cfg)%Z).

End WithPool.

Arguments World : clear implicits.
Arguments M : clear implicits.
Arguments Run : clear implicits.

(** *** [typeToName], lines 396-423, and the line written for an answer,
    lines 273-300 *)

(** The record types of the [dns] library that [typeToName] knows, beside
    [TypeNS]. *)
Definition TypeA : Z := 1.
Definition TypeCNAME : Z := 5.
Definition TypeSOA : Z := 6.
Definition TypePTR : Z := 12.
Definition TypeMX : Z := 15.
Definition TypeTXT : Z := 16.
Definition TypeAAAA : Z := 28.
Definition TypeSRV : Z := 33.
Definition TypeSPF : Z := 99.

(** The conversion [uint16(n)] of an [int]. *)
Definition uint16 (n : Z) : Z := n mod 65536.

(** [typeToName]; [qtype] is a [uint16]. *)
Definition typeToName (qtype : Z) : string :=
  if Z.eqb qtype TypeCNAME then "CNAME"
  else if Z.eqb qtype TypeA then "A"
  else if Z.eqb qtype TypeAAAA then "AAAA"
  else if Z.eqb qtype TypePTR then "PTR"
  else if Z.eqb qtype TypeNS then "NS"
  else if Z.eqb qtype TypeMX then "MX"
  else if Z.eqb qtype TypeTXT then "TXT"
  else if Z.eqb qtype TypeSOA then "SOA"
  else if Z.eqb qtype TypeSPF then "SPF"
  else if Z.eqb qtype TypeSRV then "SRV"
  else "".

(** [strings.Split(s, ",")]. *)
Fixpoint Split (s : string) : list string :=
  match s with
  | EmptyString => [EmptyString]
  | String c s' =>
      if Ascii.eqb c "," then EmptyString :: Split s'
      else
        match Split s' with
        | field :: fields => String c field :: fields
        | [] => [String c EmptyString]
        end
  end.

(** [fmt.Sprintf("%-24s", s)] for a string of one-byte characters: [s]
    filled up with blanks on the right to 24 characters. *)
Definition padRight24 (s : string) : string :=
  s +:+ String.concat "" (replicate (24 - String.length s) " ").

(** Lines 294-296: the data of a record as the line shows it, before
    [RemoveLastDot]; [None] is the panic of the index expression. *)
Definition shownData (rec : DNSAnswer) : option string :=
  if Z.eqb (uint16 (ans_Type rec)) TypeNS then Split (ans_Data rec) !! 1
  else Some (ans_Data rec).

Section WithTerminal.
Context {HU : Unicode}.
(** [resolvers.RemoveLastDot]; the slice that [Slice()] returns for the
    [stringset.Set] into which the given strings have been inserted, one
    after the other; and the colours [blue], [green] and [yellow] of the
    command. *)
Variable RemoveLastDot : string -> string.
Variable setSlice : list string -> list string.
Variables blue green yellow : string -> string.

(** The loop of lines 280-285, from index [j] on. *)
Fixpoint typesLoop (j : nat) (ts : string) (strs : list string) : string :=
  match strs with
  | [] => ts
  | str :: strs' =>
      let ts := if Nat.eqb j 0 then ts else ts +:+ ", " in
      typesLoop (Datatypes.S j) (ts +:+ ToUpper str) strs'
  end.

(** The loop of lines 289-298, from index [j] on; [None] is the panic of
    line 295. *)
Fixpoint dataLoop (j : nat) (data : string) (recs : list DNSAnswer) : option string :=
  match recs with
  | [] => Some data
  | rec :: recs' =>
      let data := if Nat.eqb j 0 then data else data +:+ ", " in
      recData ← shownData rec;
      dataLoop (Datatypes.S j) (data +:+ RemoveLastDot recData) recs'
  end.

(** Lines 274-300: the line written for [req], or the panic. *)
Definition printLine (req : DNSRequest) : option string :=
  let tss := setSlice ((fun rec => typeToName (uint16 (ans_Type rec))) <$> Records req) in
  let ts := typesLoop 0 "" tss in
  let tstr := padRight24 ("[" +:+ ts +:+ "] ") in
  data ← dataLoop 0 "" (Records req);
  Some (blue tstr +:+ green (Name req) +:+ " " +:+ yellow data
        +:+ String (ascii_of_nat 10) "").

End WithTerminal.

(** *** [processDNSInputFiles], lines 306-346 *)

(** [args.Filepaths]: the paths that [processDNSInputFiles] reads. *)
Record Filepaths := {
  pathBlacklist : string;
  pathNames : list string;
  pathDomains : list string;
  pathResolvers : list string;
}.

(** The four sets of [dnsArgs] that [processDNSInputFiles] fills; [T] is
    [stringset.Set]. *)
Record Inputs (T : Type) := {
  inBlacklist : T;
  inNames : T;
  inDomains : T;
  inResolvers : T;
}.
Arguments inBlacklist {T} _.
Arguments inNames {T} _.
Arguments inDomains {T} _.
Arguments inResolvers {T} _.

(** What a call leaves behind: the sets, which the function fills in
    place, the files it has asked for, in order, and the error returned. *)
Record Loaded (T : Type) := {
  sets : Inputs T;
  reads : list string;
  failure : option string;
}.
Arguments sets {T} _.
Arguments reads {T} _.
Arguments failure {T} _.

(** The files that a call reads when none of them fails, in the order in
    which it asks for them. *)
Definition askedFiles (paths : Filepaths) : list string :=
  (if String.eqb (pathBlacklist paths) "" then [] else [pathBlacklist paths])
  ++ pathNames paths ++ pathDomains paths ++ pathResolvers paths.

Section WithFiles.
Context {T : Type}.
(** [stringset.Set.InsertMany] and [config.GetListFromFile]. *)
Variable InsertMany : T -> list string -> T.
Variable GetListFromFile : string -> list string + string.

(** The loops of lines 316-323, 326-333 and 336-343: the set filled from
    the files, the files asked for, and the error of the file that could
    not be read. *)
Fixpoint insertFiles (set : T) (files : list string) : T * list string * option string :=
  match files with
  | [] => (set, [], None)
  | f :: files' =>
      match GetListFromFile f with
      | inr err => (set, [f], Some err)
      | inl list =>
          let '(set', read, err) := insertFiles (InsertMany set list) files' in
          (set', f :: read, err)
      end
  end.

(** Lines 308-314. *)
Definition insertBlacklist (set : T) (path : string) : T * list string * option string :=
  if String.eqb path "" then (set, [], None)
  else
    match GetListFromFile path with
    | inr err => (set, [path], Some err)
    | inl list => (InsertMany set list, [path], None)
    end.

(** [fmt.Errorf(msg + ": %v", err)], as the text of the error. *)
Definition Errorf (msg err : string) : string := msg +:+ ": " +:+ err.

Definition processDNSInputFiles (paths : Filepaths) (args : Inputs T) : Loaded T :=
  let '(bl, r1, e1) := insertBlacklist (inBlacklist args) (pathBlacklist paths) in
  let args := {| inBlacklist := bl; inNames := inNames args;
                 inDomains := inDomains args; inResolvers := inResolvers args |} in
  match e1 with
  | Some err =>
      {| sets := args; reads := r1;
         failure := Some (Errorf "Failed to parse the blacklist file" err) |}
  | None =>
  let '(nm, r2, e2) := insertFiles (inNames args) (pathNames paths) in
  let args := {| inBlacklist := inBlacklist args; inNames := nm;
                 inDomains := inDomains args; inResolvers := inResolvers args |} in
  match e2 with
  | Some err =>
      {| sets := args; reads := r1 ++ r2;
         failure := Some (Errorf "Failed to parse the subdomain names file" err) |}
  | None =>
  let '(dm, r3, e3) := insertFiles (inDomains args) (pathDomains paths) in
  let args := {| inBlacklist := inBlacklist args; inNames := inNames args;
                 inDomains := dm; inResolvers := inResolvers args |} in
  match e3 with
  | Some err =>
      {| sets := args; reads := r1 ++ r2 ++ r3;
         failure := Some (Errorf "Failed to parse the domain names file" err) |}
  | None =>
  let '(rs, r4, e4) := insertFiles (inResolvers args) (pathResolvers paths) in
  let args := {| inBlacklist := inBlacklist args; inNames := inNames args;
                 inDomains := inDomains args; inResolvers := rs |} in
  match e4 with
  | Some err =>
      {| sets := args; reads := r1 ++ r2 ++ r3 ++ r4;
         failure := Some (Errorf "Failed to parse the esolver file" err) |}
  | None =>
      {| sets := args; reads := r1 ++ r2 ++ r3 ++ r4; failure := None |}
  end end end end.

(** A file that [GetListFromFile] can read, and the list it gives. *)
Definition readable (f : string) : bool :=
  match GetListFromFile f with inl _ => true | inr _ => false end.

Definition listOf (f : string) : list string :=
  match GetListFromFile f with inl list => list | inr _ => [] end.

End WithFiles.

(** The values that [processDNSAnswers] has taken from the answer channel
    among the cases [sigs], in order. *)
Definition received (sigs : list Signal) : list (option DNSRequest) :=
  omap (fun s => match s with SigAnswer req => Some req | _ => None end) sigs.

End Dns.

(** ** [services/sources/whoisxml.go] *)

Module Sources.
#[local] Open Scope Z_scope.

(** [time.Second] and [time.Minute], in nanoseconds. *)
Definition Second : Z := 1000000000.
Definition Minute : Z := 60 * Second.

(** [config.APIKey]: the field the source reads. *)
Record APIKey := { Key : string }.

Record WhoisXML := {
  API : option APIKey;
  SourceType : string;
  RateLimit : Z;
}.

(** [NewWhoisXML], lines 62-70; [api] is the constant [requests.API]. *)
Definition NewWhoisXML (api : string) : WhoisXML :=
  {| API := None; SourceType := api; RateLimit := 10 * Second |}.

(** [fmt.Sprintf(format)] without operands and for verbs without flags:
    the text is copied, ["%%"] is a percent sign, a verb finds its
    operand missing and a lone ["%"] at the end has no verb. *)
Fixpoint Sprintf (format : string) : string :=
  match format with
  | EmptyString => EmptyString
  | String c rest =>
      if Ascii.eqb c "%" then
        match rest with
        | EmptyString => "%!(NOVERB)"
        | String v rest' =>
            if Ascii.eqb v "%" then String "%" (Sprintf rest')
            else "%!" +:+ String v "(MISSING)" +:+ Sprintf rest'
        end
      else String c (Sprintf rest)
  end.

(** [getReverseWhoisURL], lines 154-157. *)
Definition getReverseWhoisURL (w : WhoisXML) (domain : string) : string :=
  let format := "https://reverse-whois-api.whoisxmlapi.com/api/v2" in
  Sprintf format.

(** What [executeWhoisQuery] does to the outside.  The text of a log
    message is left out. *)
Inductive Action :=
| Log                                          (* Publish(requests.LogTopic, ...) *)
| Post (url token : string) (include : list string)    (* http.RequestWebPage *)
| NewWhois (domain : string) (newDomains : list string) (tag source : string).
                                               (* Publish(requests.NewWhoisTopic, ...) *)

(** The reply to the request, as far as the source looks at it: an error,
    a page that does not decode, or the decoded [WhoisXMLResponse]. *)
Inductive Reply :=
| RequestError
| DecodeError
| Response (Found : Z) (List : list string).

(** [executeWhoisQuery], lines 111-152; [w.String()] is the name given to
    the service in line 68. *)
Definition executeWhoisQuery (w : WhoisXML) (domain : string) (reply : Reply)
  : list Action :=
  let u := getReverseWhoisURL w domain in
  match API w with
  | None => [Log]
  | Some key =>
      if String.eqb (Key key) "" then [Log]
      else
        Post u (Key key) [domain] ::
        match reply with
        | RequestError => [Log]
        | DecodeError => [Log]
        | Response Found List =>
            if Z.ltb 0 Found then [NewWhois domain List (SourceType w) "WhoisXML"]
            else []
        end
  end.

(** The cases of the [select] of [processRequests]. *)
Inductive Message :=
| Quit                              (* <-w.Quit() *)
| WhoisRequest (domain : string)    (* whois := <-w.WhoisRequestChan() *)
| AddrRequest                       (* <-w.AddrRequestChan() *)
| ASNRequest.                       (* <-w.ASNRequestChan() *)

(** A message together with the time that the clock lets pass around it:
    [waited] in the [select] until the message is there and line 98 reads
    the clock, [lag] between that reading and the one of line 101 on top
    of what [time.Sleep] was asked for, and [took] for
    [executeWhoisQuery], between the readings of lines 101 and 103; and
    the [reply] that the API gives when it is asked. *)
Record Arrival := {
  msg : Message;
  waited : Z;
  lag : Z;
  took : Z;
  reply : Reply;
}.

(** The clock never runs backwards and [time.Sleep] pauses for at least
    the duration asked for. *)
Definition monotone (a : Arrival) : Prop :=
  0 <= waited a /\ 0 <= lag a /\ 0 <= took a.

(** One call of [executeWhoisQuery]: the domain, what the call did, and
    the readings of the clock before and after it. *)
Record Query := {
  domain : string;
  actions : list Action;
  started : Z;
  ended : Z;
}.

Record State := {
  now : Z;
  last : Z;
  queries : list Query;
}.

Inductive Control (A : Type) :=
| Continue (a : A)
| Return (a : A).
Arguments Continue {A} a.
Arguments Return {A} a.

Section WithConfig.
(** The method [IsDomainInScope] of [w.Config()]. *)
Variable IsDomainInScope : string -> bool.

(** [time.Sleep(d)]. *)
Definition sleep (d : Z) (t : Z) : Z := t + d.

(** One [select] of [processRequests], lines 92-107. *)
Definition selectCase (w : WhoisXML) (st : State) (a : Arrival) : Control State :=
  let t := now st + waited a in
  match msg a with
  | Quit => Return {| now := t; last := last st; queries := queries st |}
  | WhoisRequest d =>
      if IsDomainInScope d then
        let t := if Z.ltb (t - last st) (RateLimit w) then sleep (RateLimit w) t else t in
        let t := t + lag a in
        let last1 := t in
        let acts := executeWhoisQuery w d (reply a) in
        let t := t + took a in
        let q := {| domain := d; actions := acts; started := last1; ended := t |} in
        Continue {| now := t; last := t; queries := queries st ++ [q] |}
      else Continue {| now := t; last := last st; queries := queries st |}
  | AddrRequest | ASNRequest =>
      Continue {| now := t; last := last st; queries := queries st |}
  end.

(** The [for] loop of line 91. *)
Fixpoint requestsLoop (w : WhoisXML) (st : State) (arrivals : list Arrival) : State :=
  match arrivals with
  | [] => st
  | a :: rest =>
      match selectCase w st a with
      | Continue st' => requestsLoop w st' rest
      | Return st' => st'
      end
  end.

(** [time.Now().Truncate(d)] for an instant [t] counted from the zero
    time. *)
Definition Truncate (t d : Z) : Z := if Z.leb d 0 then t else t - t mod d.

(** [processRequests], lines 88-109, started at the instant [t0]. *)
Definition processRequests (w : WhoisXML) (t0 : Z) (arrivals : list Arrival) : State :=
  requestsLoop w {| now := t0; last := Truncate t0 (10 * Minute); queries := [] |} arrivals.

(** The state of a loop that has kept its pace: the queries made are for
    domains in scope, any two in a row lie [RateLimit] apart, and [last] is
    the end of the latest of them and not ahead of the clock. *)
Definition paced (w : WhoisXML) (st : State) : Prop :=
  Forall (fun q => IsDomainInScope (domain q) = true) (queries st)
  /\ (forall k q1 q2, queries st !! k = Some q1 -> queries st !! S k = Some q2 ->
        RateLimit w <= started q2 - ended q1)
  /\ (forall q, List.last (Some <$> queries st) None = Some q -> ended q = last st)
  /\ last st <= now st.

(** The arrivals that the loop gets to: those in front of the first
    [Quit]. *)
Fixpoint beforeQuit (arrivals : list Arrival) : list Arrival :=
  match arrivals with
  | [] => []
  | a :: rest =>
      match msg a with
      | Quit => []
      | _ => a :: beforeQuit rest
      end
  end.

(** What an arrival asks of the API: for a request about a domain in
    scope, the domain and what [executeWhoisQuery] does for it. *)
Definition served (w : WhoisXML) (a : Arrival) : option (string * list Action) :=
  match msg a with
  | WhoisRequest d =>
      if IsDomainInScope d then Some (d, executeWhoisQuery w d (reply a)) else None
  | _ => None
  end.

Definition isPost (a : Action) : bool :=
  match a with Post _ _ _ => true | _ => false end.

End WithConfig.

(** [OnStart], lines 73-86, as far as the service and the bus see it:
    [key] is what [w.Config().GetAPIKey(w.String())] returns.  The
    subscription and the start of [processRequests] are left out. *)
Definition OnStart (w : WhoisXML) (key : option APIKey) : WhoisXML * list Action :=
  let w := {| API := key; SourceType := SourceType w; RateLimit := RateLimit w |} in
  (w, match API w with
      | None => [Log]
      | Some k => if String.eqb (Key k) "" then [Log] else []
      end).

End Sources.

(** ** A resolver pool and a stream of requests to run the scenarios on

    One root domain [example.com]: [www] is an alias of [cdn] and also has
    an address, [mail] has an address only, and every name under
    [dyn.example.org] falls under a dynamic wildcard.  The state of the
    pool counts the calls it has served. *)

Module Scenario.
Import Requests Resolvers Dns.

Definition subdomainToDomain (name : string) : string :=
  if String.eqb name "www.example.com" || String.eqb name "mail.example.com"
     || String.eqb name "blocked.example.com" || String.eqb name "gone.example.com"
  then "example.com"
  else if String.eqb name "a.dyn.example.org" then "dyn.example.org"
  else "".

Definition lookup (name qtype : string) : list DNSAnswer * option string :=
  if String.eqb name "www.example.com" && String.eqb qtype "CNAME"
  then ([{| ans_Type := 5; ans_Data := "cdn.example.com" |}], None)
  else if String.eqb name "www.example.com" && String.eqb qtype "A"
  then ([{| ans_Type := 1; ans_Data := "10.0.0.1" |}], None)
  else if String.eqb name "mail.example.com" && String.eqb qtype "A"
  then ([{| ans_Type := 1; ans_Data := "10.0.0.2" |}], None)
  else ([], Some "no answer").

(** The names and record types of the scenarios are ASCII, for which
    [strings.ToUpper] does not consult the [unicode] package; other
    strings are taken to be left as they are. *)
#[global] Instance unicode : Unicode := {|
  MapToUpper s := s;
|}.

#[global] Instance pool : Pool nat := {|
  SubdomainToDomain _ name := subdomainToDomain name;
  GetWildcardType n _ req :=
    (if String.eqb (Domain req) "dyn.example.org" then WildcardTypeDynamic
     else WildcardTypeNone, Datatypes.S n);
  Resolve n _ name qtype _ := (lookup name qtype, Datatypes.S n);
  MatchesWildcard n _ req := (String.eqb (Domain req) "dyn.example.org", Datatypes.S n);
|}.

#[global] Instance config : ConfigMethods := {|
  Blacklisted cfg name := bool_decide (name ∈ Blacklist cfg);
|}.

Definition args (types names : list string) (minutes : Z) : dnsArgs :=
  {| argBlacklist := ["blocked.example.com"]; argMaxDNSQueries := 5;
     argNames := names; argRecordTypes := types; argTimeout := minutes |}.

Definition defaults : Config :=
  {| Blacklist := []; MaxDNSQueries := 0; ProvidedNames := [];
     RecordTypes := []; Timeout := 0 |}.

(** The configuration that [OverrideConfig] makes of the arguments
    [-t types] for the names [names], without a timeout. *)
Definition cfg (types names : list string) : Config :=
  OverrideConfig (args types names 0) defaults.

(** The same with [-timeout minutes]. *)
Definition timed (types names : list string) (minutes : Z) : Config :=
  OverrideConfig (args types names minutes) defaults.

Definition world0 : World nat :=
  {| Dns.pool := 0; held := 1; answers := []; cancelled := false; trace := [] |}.

(** The request that line 196 makes of a name. *)
Definition named (name : string) : DNSRequest :=
  {| Name := name; Domain := ""; Records := [] |}.

Definition request (name : string) : option DNSRequest := Some (named name).

Definition cname : DNSAnswer := {| ans_Type := 5; ans_Data := "cdn.example.com" |}.

Definition names : list string :=
  ["mail.example.com"; "www.example.com"; "gone.example.com"].

(** For the WhoisXML source: the domain in scope, and three requests that
    come in one second after another, the second of them out of scope. *)
Definition inScope (d : string) : bool := String.eqb d "example.com".

Definition arrivals : list Sources.Arrival :=
  let sec := Sources.Second in
  [ {| Sources.msg := Sources.WhoisRequest "example.com";
       Sources.waited := sec; Sources.lag := 0; Sources.took := 2 * sec;
       Sources.reply := Sources.Response 1 ["example.net"] |};
    {| Sources.msg := Sources.WhoisRequest "example.org";
       Sources.waited := sec; Sources.lag := 0; Sources.took := 0;
       Sources.reply := Sources.RequestError |};
    {| Sources.msg := Sources.WhoisRequest "example.com";
       Sources.waited := sec; Sources.lag := 5; Sources.took := sec;
       Sources.reply := Sources.DecodeError |} ].

(** For the line written for an answer: [RemoveLastDot] takes one dot off
    the end, the slice of a set has each of its strings once, and the
    terminal shows no colours.  [ns] is an
    NS record as the resolvers give it, the name served in front of the
    comma. *)
Fixpoint removeLastDot (s : string) : string :=
  match s with
  | EmptyString => EmptyString
  | String c s' =>
      match s' with
      | EmptyString => if Ascii.eqb c "." then EmptyString else s
      | _ => String c (removeLastDot s')
      end
  end.

Definition slice (strs : list string) : list string := remove_dups strs.

Definition plain (s : string) : string := s.

Definition ns : DNSAnswer :=
  {| ans_Type := 2; ans_Data := "example.com,ns1.example.com." |}.

Definition address : DNSAnswer := {| ans_Type := 1; ans_Data := "10.0.0.1" |}.

(** For the input files: a directory with three files, sets that keep
    what is inserted in order, and the arguments [-blf bl.txt -nf names.txt
    -nf more.txt -df domains.txt], where [more.txt] does not exist. *)
Definition directory (path : string) : list string + string :=
  if String.eqb path "bl.txt" then inl ["blocked.example.com"]
  else if String.eqb path "names.txt" then inl ["www.example.com"; "mail.example.com"]
  else if String.eqb path "domains.txt" then inl ["example.com"]
  else inr "no such file".

Definition insertMany (set strs : list string) : list string := set ++ strs.

Definition noInputs : Inputs (list string) :=
  {| inBlacklist := []; inNames := []; inDomains := []; inResolvers := [] |}.

Definition paths (names : list string) : Filepaths :=
  {| pathBlacklist := "bl.txt"; pathNames := names;
     pathDomains := ["domains.txt"]; pathResolvers := [] |}.

(** For the WhoisXML source: a key, and the service as [NewWhoisXML] and
    [OnStart] set it up with it. *)
Definition key : Sources.APIKey := {| Sources.Key := "secret" |}.

Definition whoisxml (k : option Sources.APIKey) : Sources.WhoisXML :=
  (Sources.OnStart (Sources.NewWhoisXML "api") k).1.

End Scenario.

(** * Properties *)

Import Requests Resolvers Dns.

(** ** The quiescence detector *)

Section DetectorFacts.

Lemma answersLoop_waiting_lt l sigs d d' :
  answersLoop l d sigs = Waiting d' -> i d' < l.
Proof.
  revert d. induction sigs as [|s sigs IH]; intros d; simpl.
  - destruct (Nat.ltb_spec (i d) l); [|discriminate].
    intros [= <-]. assumption.
  - destruct (Nat.ltb (i d) l); [|discriminate].
    destruct (selectCase d s); [apply IH|discriminate..].
Qed.

(** Signals offered to a detector that waits are handled from the state
    it waits in. *)
Lemma answersLoop_app l pre sigs d d' :
  answersLoop l d pre = Waiting d' ->
  answersLoop l d (pre ++ sigs) = answersLoop l d' sigs.
Proof.
  revert d. induction pre as [|s pre IH]; intros d; simpl.
  - destruct (Nat.ltb (i d) l); [|discriminate]. by intros [= <-].
  - destruct (Nat.ltb (i d) l); [|discriminate].
    destruct (selectCase d s); [apply IH|discriminate..].
Qed.

Lemma answersLoop_tick l d rest :
  i d < l ->
  answersLoop l d (SigTick :: rest) =
    if first d then answersLoop l d rest
    else if active d then answersLoop l (set_active false d) rest
    else Returned d rest.
Proof.
  intros Hlt. cbn [answersLoop selectCase]. apply Nat.ltb_lt in Hlt as ->.
  by destruct (first d), (active d).
Qed.

(** [first] is cleared by the first answer and by nothing else. *)
Lemma waiting_first l sigs d d' :
  answersLoop l d sigs = Waiting d' ->
  first d' = first d && negb (existsb isAnswer sigs).
Proof.
  revert d. induction sigs as [|s sigs IH]; intros d; simpl.
  - destruct (Nat.ltb (i d) l); [|discriminate].
    intros [= <-]. by rewrite andb_true_r.
  - destruct (Nat.ltb (i d) l); [|discriminate].
    destruct s; simpl; try discriminate.
    + destruct (first d) eqn:Hf.
      * intros Hw. rewrite (IH _ Hw). by rewrite Hf.
      * destruct (active d); [|discriminate].
        intros Hw. rewrite (IH _ Hw). simpl. by rewrite Hf.
    + intros Hw. by rewrite (IH _ Hw).
    + destruct (printPanics req); [discriminate|].
      intros Hw. rewrite (IH _ Hw). simpl. by rewrite andb_false_r.
Qed.

(** The flag is only ever cleared after the first answer. *)
Lemma waiting_first_active l sigs d d' :
  (first d = true -> active d = true) ->
  answersLoop l d sigs = Waiting d' ->
  first d' = true -> active d' = true.
Proof.
  revert d. induction sigs as [|s sigs IH]; intros d Hd; simpl.
  - destruct (Nat.ltb (i d) l); [|discriminate]. by intros [= <-].
  - destruct (Nat.ltb (i d) l); [|discriminate].
    destruct s; simpl; try discriminate.
    + destruct (first d) eqn:Hf; [by apply IH; rewrite Hf|].
      destruct (active d); [|discriminate].
      apply IH. simpl. congruence.
    + by apply IH.
    + destruct (printPanics req); [discriminate|]. by apply IH.
Qed.

Lemma waiting_after_answer l pre req d d' :
  answersLoop l d (pre ++ [SigAnswer req]) = Waiting d' ->
  first d' = false /\ active d' = true.
Proof.
  revert d. induction pre as [|s pre IH]; intros d; simpl.
  - destruct (Nat.ltb (i d) l); [|discriminate].
    destruct (printPanics req); [discriminate|]. simpl.
    match goal with |- context [Nat.ltb ?a ?b] => destruct (Nat.ltb a b) end;
      [|discriminate].
    by intros [= <-].
  - destruct (Nat.ltb (i d) l); [|discriminate].
    destruct (selectCase d s); [apply IH|discriminate..].
Qed.

(** C1, as stated, fails on the code.  The grace period is not the first
    tick: when an answer has come in before it, the very first tick
    already clears the flag; and as long as no answer has come in, every
    later tick is ignored too, the flag stays set and the detector never
    stops. *)
Lemma first_tick_grace_counterexample :
  ~ (forall (l : nat) (pre : list Signal),
       SigTick ∉ pre ->
       answersLoop l detector0 (pre ++ [SigTick]) = answersLoop l detector0 pre)
  /\ ~ (forall (l : nat) (pre : list Signal) (d : Detector),
         SigTick ∈ pre ->
         answersLoop l detector0 pre = Waiting d ->
         active d = true ->
         answersLoop l detector0 (pre ++ [SigTick]) = Waiting (set_active false d)).
Proof.
  split; intros Hc.
  - specialize (Hc 2 [SigAnswer None]). simpl in Hc.
    assert (Hn : SigTick ∉ [SigAnswer None]).
    { intros Hin. apply list_elem_of_singleton in Hin. discriminate. }
    specialize (Hc Hn). discriminate.
  - specialize (Hc 2 [SigTick] detector0). simpl in Hc.
    assert (Hin : SigTick ∈ [SigTick]) by apply list_elem_of_here.
    specialize (Hc Hin eq_refl eq_refl). discriminate.
Qed.

(** C1, amended: while no answer has been received a tick does nothing,
    however many ticks there have been; once an answer has been received
    a tick with the flag set clears it and the detector goes on; a tick
    with the flag clear makes it return.  So after a burst that ends with
    an answer the first tick is survived and the second one stops the
    detector, whatever comes after it. *)
Theorem quiescence_two_idle_ticks (l : nat) (pre : list Signal) (d : Detector) :
  answersLoop l detector0 pre = Waiting d ->
  (existsb isAnswer pre = false ->
     answersLoop l detector0 (pre ++ [SigTick]) = Waiting d)
  /\ (existsb isAnswer pre = true -> active d = true ->
      answersLoop l detector0 (pre ++ [SigTick]) = Waiting (set_active false d))
  /\ (active d = false ->
      forall rest, answersLoop l detector0 (pre ++ SigTick :: rest) = Returned d rest)
  /\ (forall req burst, pre = burst ++ [SigAnswer req] ->
      answersLoop l detector0 (pre ++ [SigTick]) = Waiting (set_active false d)
      /\ forall rest,
          answersLoop l detector0 (pre ++ SigTick :: SigTick :: rest)
          = Returned (set_active false d) rest).
Proof.
  intros Hw.
  pose proof (answersLoop_waiting_lt _ _ _ _ Hw) as Hlt.
  pose proof (waiting_first _ _ _ _ Hw) as Hfirst. simpl in Hfirst.
  assert (Hinv : first d = true -> active d = true).
  { apply (waiting_first_active l pre detector0); [reflexivity|exact Hw]. }
  assert (Hidle : i (set_active false d) < l) by done.
  assert (Hnil : forall d', i d' < l -> answersLoop l d' [] = Waiting d').
  { intros d' Hd'. simpl. by apply Nat.ltb_lt in Hd' as ->. }
  repeat split.
  - intros Hna. rewrite (answersLoop_app _ _ _ _ _ Hw), answersLoop_tick by done.
    rewrite Hfirst, Hna. cbn [negb]. by apply Hnil.
  - intros Ha Hact. rewrite (answersLoop_app _ _ _ _ _ Hw), answersLoop_tick by done.
    rewrite Hfirst, Ha, Hact. cbn [negb]. by apply Hnil.
  - intros Hact rest. rewrite (answersLoop_app _ _ _ _ _ Hw), answersLoop_tick by done.
    destruct (first d); [by rewrite Hinv in Hact|]. by rewrite Hact.
  - subst pre. destruct (waiting_after_answer _ _ _ _ _ Hw) as [Hf Ha].
    rewrite (answersLoop_app _ _ _ _ _ Hw), answersLoop_tick by done.
    rewrite Hf, Ha. by apply Hnil.
  - intros rest. subst pre. destruct (waiting_after_answer _ _ _ _ _ Hw) as [Hf Ha].
    rewrite (answersLoop_app _ _ _ _ _ Hw), answersLoop_tick by done.
    rewrite Hf, Ha, answersLoop_tick by done. cbn [first active set_active]. by rewrite Hf.
Qed.

(** Ten completions out of eleven names, then silence: the detector waits
    after the first tick and returns at the second, the third is never
    looked at. *)
Lemma burst_of_ten_witness :
  let burst := replicate 10 (SigAnswer None) in
  let d := {| first := false; active := true; i := 10; printed := [] |} in
  answersLoop 11 detector0 burst = Waiting d
  /\ answersLoop 11 detector0 (burst ++ [SigTick]) = Waiting (set_active false d)
  /\ answersLoop 11 detector0 (burst ++ [SigTick; SigTick; SigTick])
     = Returned (set_active false d) [SigTick].
Proof.
  intros burst d.
  assert (Hw : answersLoop 11 detector0 burst = Waiting d) by reflexivity.
  destruct (quiescence_two_idle_ticks 11 burst d Hw) as (_ & _ & _ & Hb).
  destruct (Hb None (replicate 9 (SigAnswer None)) eq_refl) as [H1 H2].
  split; [exact Hw|]. split; [exact H1|]. exact (H2 [SigTick]).
Defined.

End DetectorFacts.

(** ** The order of the record types *)

Section RecordTypeFacts.
Context {HU : Unicode}.

Lemma length_place placed qtype : length (place placed qtype) = Datatypes.S (length placed).
Proof.
  unfold place. destruct (String.eqb _ _), placed; simpl;
    rewrite ?length_app; simpl; lia.
Qed.

(** The loop body, on a slice of which [placed] has been handled. *)
Lemma upperAt_place placed qtype rest :
  upperAt (placed ++ qtype :: rest) (length placed) = place placed qtype ++ rest.
Proof.
  unfold upperAt, place.
  rewrite list_lookup_middle by done. cbn [from_option id].
  rewrite insert_app_r_alt by lia. rewrite Nat.sub_diag. cbn [insert list_insert].
  rewrite list_lookup_middle by done. cbn [from_option id].
  destruct (String.eqb (ToUpper qtype) "CNAME").
  - destruct placed as [|t0 placed]; [done|].
    cbn [app lookup list_lookup from_option id insert list_insert length]. f_equal.
    rewrite (insert_app_r_alt placed) by lia. rewrite Nat.sub_diag. cbn [insert list_insert].
    by rewrite <- app_assoc.
  - by rewrite <- app_assoc.
Qed.

Lemma foldl_upperAt rest : forall placed,
  foldl upperAt (placed ++ rest) (seq (length placed) (length rest))
  = foldl place placed rest.
Proof.
  induction rest as [|qtype rest IH]; intros placed.
  - by rewrite app_nil_r.
  - cbn [length seq foldl]. rewrite upperAt_place.
    rewrite <- (length_place placed qtype). apply IH.
Qed.

(** The index loop of [OverrideConfig] is [place], type after type. *)
Lemma overrideRecordTypes_place types :
  types <> [] -> overrideRecordTypes types = foldl place [] types.
Proof.
  intros Hne. unfold overrideRecordTypes.
  destruct types as [|t types]; [done|]. cbn [length Nat.ltb Nat.leb].
  apply (foldl_upperAt (t :: types) []).
Qed.



Lemma place_head placed qtype :
  head placed = Some "CNAME" \/ ToUpper qtype = "CNAME" ->
  head (place placed qtype) = Some "CNAME".
Proof.
  unfold place. destruct (String.eqb_spec (ToUpper qtype) "CNAME") as [->|Hne].
  - intros _. by destruct placed.
  - intros [Hhd|]; [|done]. by destruct placed.
Qed.

Lemma foldl_place_head rest : forall placed,
  head placed = Some "CNAME" \/ "CNAME" ∈ ToUpper <$> rest ->
  head (foldl place placed rest) = Some "CNAME".
Proof.
  induction rest as [|qtype rest IH]; intros placed; cbn [foldl fmap list_fmap].
  - intros [Hhd|Hin]; [done|]. by apply elem_of_nil in Hin.
  - intros Hor. apply IH.
    destruct Hor as [Hhd|Hin].
    + left. apply place_head. by left.
    + apply elem_of_cons in Hin as [Heq|Hin]; [|by right].
      left. apply place_head. by right.
Qed.

Lemma foldl_place_plain rest : forall placed,
  "CNAME" ∉ ToUpper <$> rest ->
  foldl place placed rest = placed ++ (ToUpper <$> rest).
Proof.
  induction rest as [|qtype rest IH]; intros placed; cbn [foldl fmap list_fmap].
  - by rewrite app_nil_r.
  - intros Hnin. apply not_elem_of_cons in Hnin as [Hne Hnin].
    rewrite IH by done. unfold place.
    destruct (String.eqb_spec (ToUpper qtype) "CNAME"); [congruence|].
    by rewrite <- app_assoc.
Qed.

(** When the caller asks for CNAME, [OverrideConfig] puts it first. *)
Lemma overrideRecordTypes_cname_first types :
  "CNAME" ∈ ToUpper <$> types ->
  exists rest, overrideRecordTypes types = "CNAME" :: rest.
Proof.
  intros Hin.
  assert (Hne : types <> []).
  { intros ->. by apply elem_of_nil in Hin. }
  rewrite overrideRecordTypes_place by done.
  pose proof (foldl_place_head types [] (or_intror Hin)) as Hhd.
  destruct (foldl place [] types) as [|t rest]; [done|].
  exists rest. by injection Hhd as ->.
Qed.

End RecordTypeFacts.

(** ** The resolution of one name *)

Section RequestFacts.
Context {S : Type} {HP : Pool S} {HC : ConfigMethods} {HU : Unicode}.

Lemma count_app p (tr1 tr2 : list Event) :
  count p (tr1 ++ tr2) = count p tr1 + count p tr2.
Proof. unfold count. by rewrite filter_app, length_app. Qed.

Lemma resolved_app (tr1 tr2 : list Event) :
  resolved (tr1 ++ tr2) = resolved tr1 ++ resolved tr2.
Proof. apply omap_app. Qed.

Lemma resolved_resolves name (ts : list string) :
  resolved ((fun t => EvResolve name t PriorityLow) <$> ts) = ts.
Proof.
  unfold resolved. induction ts as [|t ts IH]; [done|].
  cbn [fmap list_fmap omap list_omap]. by f_equal.
Qed.

Lemma extends_refl (w : World S) : extends w w [].
Proof. unfold extends. by rewrite app_nil_r. Qed.

Lemma extends_trans (w1 w2 w3 : World S) evs1 evs2 :
  extends w1 w2 evs1 -> extends w2 w3 evs2 -> extends w1 w3 (evs1 ++ evs2).
Proof.
  intros (Hh1 & Ha1 & Hc1 & Ht1) (Hh2 & Ha2 & Hc2 & Ht2). unfold extends.
  rewrite Hh2, Ha2, Hc2, Ht2, Hh1, Ha1, Hc1, Ht1. by rewrite app_assoc.
Qed.

Lemma extends_emit (w : World S) s e : extends w (emit e (withPool s w)) [e].
Proof. done. Qed.

(** One iteration of the loop of lines 225-234. *)
Lemma resolveLoop_cons name t ts acc (w : World S) :
  resolveLoop name (t :: ts) acc w =
    let r := Resolve (pool w) (cancelled w) name t PriorityLow in
    let w1 := emit (EvResolve name t PriorityLow) (withPool r.2 w) in
    let acc' := match r.1.2 with None => acc ++ r.1.1 | Some _ => acc end in
    if String.eqb t "CNAME" && negb (Nat.eqb (length acc') 0) then (acc', w1)
    else resolveLoop name ts acc' w1.
Proof.
  cbn [resolveLoop]. unfold mbind, M_bind, resolve.
  destruct (Resolve _ _ _ _ _) as [[a err] s]. cbn [fst snd].
  by destruct (_ && _).
Qed.

(** The loop calls [Resolve] for a prefix of the record types, in their
    order, and stops short of the end only behind ["CNAME"], with an answer
    in hand. *)
Lemma resolveLoop_queries name ts acc (w : World S) :
  exists queried,
    queried `prefix_of` ts
    /\ extends w (resolveLoop name ts acc w).2
         ((fun t => EvResolve name t PriorityLow) <$> queried)
    /\ (queried = ts
        \/ (last queried = Some "CNAME" /\ (resolveLoop name ts acc w).1 <> [])).
Proof.
  revert acc w. induction ts as [|t ts IH]; intros acc w.
  - exists []. split; [done|]. split; [apply extends_refl|by left].
  - rewrite resolveLoop_cons. cbv zeta.
    set (r := Resolve (pool w) (cancelled w) name t PriorityLow).
    set (w1 := emit _ (withPool r.2 w)).
    set (acc' := match r.1.2 with None => acc ++ r.1.1 | Some _ => acc end).
    destruct (String.eqb t "CNAME" && negb (Nat.eqb (length acc') 0)) eqn:Hbrk.
    + apply andb_true_iff in Hbrk as [Ht Hlen].
      apply String.eqb_eq in Ht. apply negb_true_iff, Nat.eqb_neq in Hlen.
      exists [t]. split; [by apply prefix_cons, prefix_nil|].
      split; [apply extends_emit|]. right. split; [by rewrite Ht|].
      cbn [fst]. intros Hnil. by rewrite Hnil in Hlen.
    + destruct (IH acc' w1) as (queried & Hpre & Hext & Hend).
      exists (t :: queried). split; [by apply prefix_cons|].
      split; [apply (extends_trans w w1 _ [_] _ (extends_emit w r.2 _) Hext)|].
      destruct Hend as [->|[Hlast Hne]]; [by left|right].
      split; [|done]. destruct queried; [done|]. by rewrite last_cons_cons.
Qed.

(** [processDNSRequest], path by path. *)
Lemma processDNSRequest_paths (req : DNSRequest) cfg (w : World S) :
  (processDNSRequest (Some req) cfg w).2 =
    if String.eqb (Name req) "" then finish None w
    else
      let r := set_Domain (SubdomainToDomain (pool w) (Name req)) req in
      if String.eqb (Domain r) "" then finish None w
      else if Blacklisted cfg (Name req) then finish None w
      else
        let gw := GetWildcardType (pool w) (cancelled w) r in
        let w1 := emit (EvGetWildcardType r) (withPool gw.2 w) in
        if isDynamic gw.1 then finish None w1
        else
          let rl := resolveLoop (Name req) (RecordTypes cfg) [] w1 in
          let r2 := set_Records rl.1 r in
          if Nat.eqb (length rl.1) 0 then finish None rl.2
          else
            let mw := MatchesWildcard (pool rl.2) (cancelled rl.2) r2 in
            let w3 := emit (EvMatchesWildcard r2) (withPool mw.2 rl.2) in
            finish (if mw.1 then None else Some r2) w3.
Proof.
  unfold processDNSRequest, defer, finish, mbind, M_bind, mret, M_ret.
  destruct (String.eqb (Name req) "") eqn:Hname; [done|].
  unfold subdomainToDomain. cbv zeta. cbn [Name Domain set_Domain].
  destruct (String.eqb (SubdomainToDomain (pool w) (Name req)) "") eqn:Hdom; [done|].
  unfold orElse at 1.
  destruct (Blacklisted cfg (Name req)) eqn:Hbl; [done|].
  unfold getWildcardType, mbind, M_bind, mret, M_ret.
  destruct (GetWildcardType _ _ _) as [t s1]. cbn [fst snd].
  destruct (isDynamic t) eqn:Hdyn; [done|].
  destruct (resolveLoop _ _ _ _) as [a w2]. cbn [fst snd Records set_Records].
  unfold orElse.
  destruct (Nat.eqb (length a) 0) eqn:Hlen; [done|].
  unfold matchesWildcard.
  destruct (MatchesWildcard _ _ _) as [m s3]. cbn [fst snd].
  by destruct m.
Qed.

Lemma processDNSRequest_nil cfg (w : World S) :
  (processDNSRequest None cfg w).2 = finish None w.
Proof. done. Qed.

Lemma finish_trace v (w : World S) :
  trace (finish v w) = trace w ++ [EvSend v; EvRelease].
Proof. unfold finish. simpl. by rewrite <- app_assoc. Qed.

Lemma finish_answers v (w : World S) : answers (finish v w) = answers w ++ [v].
Proof. done. Qed.

Lemma finish_held v (w : World S) : held (finish v w) = (held w - 1)%Z.
Proof. done. Qed.

Lemma finish_cancelled v (w : World S) : cancelled (finish v w) = cancelled w.
Proof. done. Qed.

Lemma finish_pool v (w : World S) : pool (finish v w) = pool w.
Proof. done. Qed.

Lemma Forall_poolCall_resolves name (ts : list string) :
  Forall (fun e => isPoolCall e = true) ((fun t => EvResolve name t PriorityLow) <$> ts).
Proof. induction ts; by constructor. Qed.

(** Every path of [processDNSRequest] is a series of calls to the pool,
    among them the [Resolve] calls for a prefix of the record types, and
    then one send and the release. *)
Lemma processDNSRequest_shape req cfg (w : World S) :
  exists v w1 evs,
    (processDNSRequest req cfg w).2 = finish v w1
    /\ extends w w1 evs
    /\ Forall (fun e => isPoolCall e = true) evs
    /\ resolved evs `prefix_of` RecordTypes cfg
    /\ (resolved evs = [] \/ resolved evs = RecordTypes cfg
        \/ last (resolved evs) = Some "CNAME").
Proof.
  assert (Hrej : forall w1 evs, extends w w1 evs ->
            Forall (fun e => isPoolCall e = true) evs -> resolved evs = [] ->
            exists v w1' evs',
              finish None w1 = finish v w1' /\ extends w w1' evs'
              /\ Forall (fun e => isPoolCall e = true) evs'
              /\ resolved evs' `prefix_of` RecordTypes cfg
              /\ (resolved evs' = [] \/ resolved evs' = RecordTypes cfg
                  \/ last (resolved evs') = Some "CNAME")).
  { intros w1 evs Hext Hall Hres. exists None, w1, evs.
    rewrite Hres. split; [done|]. split; [done|]. split; [done|].
    split; [apply prefix_nil|by left]. }
  destruct req as [req|]; [|by apply (Hrej w []); [apply extends_refl|..]].
  rewrite processDNSRequest_paths.
  destruct (String.eqb (Name req) ""); [by apply (Hrej w []); [apply extends_refl|..]|].
  cbv zeta.
  set (r := set_Domain (SubdomainToDomain (pool w) (Name req)) req).
  destruct (String.eqb (Domain r) ""); [by apply (Hrej w []); [apply extends_refl|..]|].
  destruct (Blacklisted cfg (Name req)); [by apply (Hrej w []); [apply extends_refl|..]|].
  set (gw := GetWildcardType (pool w) (cancelled w) r).
  set (w1 := emit (EvGetWildcardType r) (withPool gw.2 w)).
  assert (Hw1 : extends w w1 [EvGetWildcardType r]) by apply extends_emit.
  destruct (isDynamic gw.1).
  { apply (Hrej w1 [EvGetWildcardType r]); [done| |done]. by repeat constructor. }
  destruct (resolveLoop_queries (Name req) (RecordTypes cfg) [] w1)
    as (queried & Hpre & Hext & Hend).
  set (rl := resolveLoop (Name req) (RecordTypes cfg) [] w1) in *.
  set (r2 := set_Records rl.1 r).
  pose proof (extends_trans _ _ _ _ _ Hw1 Hext) as Hw2.
  assert (Hqueried : queried = [] \/ queried = RecordTypes cfg
                     \/ last queried = Some "CNAME").
  { destruct Hend as [->|[Hlast _]]; auto. }
  destruct (Nat.eqb (length rl.1) 0).
  - eexists None, rl.2, _. split; [done|]. split; [exact Hw2|].
    rewrite resolved_app, resolved_resolves. cbn [resolved omap list_omap app].
    split; [|done]. constructor; [done|]. apply Forall_poolCall_resolves.
  - set (mw := MatchesWildcard (pool rl.2) (cancelled rl.2) r2).
    exists (if mw.1 then None else Some r2),
           (emit (EvMatchesWildcard r2) (withPool mw.2 rl.2)),
           (([EvGetWildcardType r]
             ++ ((fun t => EvResolve (Name req) t PriorityLow) <$> queried))
            ++ [EvMatchesWildcard r2]).
    split; [done|].
    split; [apply (extends_trans _ _ _ _ _ Hw2), extends_emit|].
    rewrite !resolved_app, resolved_resolves.
    cbn [resolved omap list_omap app]. rewrite app_nil_r.
    split; [|done]. constructor; [done|]. apply Forall_app.
    split; [apply Forall_poolCall_resolves|by repeat constructor].
Qed.

Lemma count_poolCalls p (evs : list Event) :
  (forall e, isPoolCall e = true -> p e = false) ->
  Forall (fun e => isPoolCall e = true) evs -> count p evs = 0.
Proof.
  intros Hp. unfold count. induction 1 as [|e evs He _ IH]; [done|].
  rewrite filter_cons. destruct (decide (p e = true)) as [Hpe|]; [|done].
  by rewrite (Hp e He) in Hpe.
Qed.

(** Whatever the request, one value is sent and then the ticket released;
    nothing else touches the channel or the semaphore. *)
Lemma processDNSRequest_one_signal req cfg (w : World S) :
  let w' := (processDNSRequest req cfg w).2 in
  exists v evs,
    trace w' = trace w ++ evs ++ [EvSend v; EvRelease]
    /\ Forall (fun e => isPoolCall e = true) evs
    /\ answers w' = answers w ++ [v]
    /\ held w' = (held w - 1)%Z
    /\ cancelled w' = cancelled w.
Proof.
  destruct (processDNSRequest_shape req cfg w)
    as (v & w1 & evs & -> & (Hh & Ha & Hc & Ht) & Hall & _).
  exists v, evs.
  rewrite finish_trace, finish_answers, finish_held, finish_cancelled.
  rewrite Hh, Ha, Hc, Ht. by rewrite <- app_assoc.
Qed.

(** C3: a name out of scope, on the blacklist or under a dynamic wildcard
    is answered with nil and the trace of its resolution holds no
    [Resolve] call: the checks come before the loop over the record
    types. *)
Theorem rejected_before_any_query (req : DNSRequest) cfg (w : World S) :
  let r := set_Domain (SubdomainToDomain (pool w) (Name req)) req in
  Domain r = "" \/ Blacklisted cfg (Name req) = true
    \/ (GetWildcardType (pool w) (cancelled w) r).1 = WildcardTypeDynamic ->
  let w' := (processDNSRequest (Some req) cfg w).2 in
  answers w' = answers w ++ [None]
  /\ exists evs, trace w' = trace w ++ evs /\ count isResolve evs = 0.
Proof.
  intros r Hrej w'. subst w'. rewrite processDNSRequest_paths. cbv zeta. fold r.
  assert (Hfin : forall w1 : World S, answers w1 = answers w ->
            (exists evs, trace w1 = trace w ++ evs /\ count isResolve evs = 0) ->
            answers (finish None w1) = answers w ++ [None]
            /\ exists evs, trace (finish None w1) = trace w ++ evs
                           /\ count isResolve evs = 0).
  { intros w1 Ha (evs & Ht & Hc). rewrite finish_answers, finish_trace, Ha, Ht.
    split; [done|]. exists (evs ++ [EvSend None; EvRelease]).
    rewrite count_app, Hc. by rewrite <- app_assoc. }
  assert (Hw : exists evs, trace w = trace w ++ evs /\ count isResolve evs = 0).
  { exists []. by rewrite app_nil_r. }
  destruct (String.eqb (Name req) ""); [by apply Hfin|].
  destruct (String.eqb_spec (Domain r) "") as [|Hdom]; [by apply Hfin|].
  destruct (Blacklisted cfg (Name req)) eqn:Hbl; [by apply Hfin|].
  destruct Hrej as [?|[?|Hdyn]]; [done..|].
  rewrite Hdyn. cbn [isDynamic]. apply Hfin; [done|].
  by exists [EvGetWildcardType r].
Qed.

(** Before ["CNAME"] the loop never breaks. *)
Lemma resolveLoop_app name pre rest : forall acc0 (w0 : World S),
  "CNAME" ∉ pre ->
  resolveLoop name (pre ++ rest) acc0 w0
  = resolveLoop name rest (resolveLoop name pre acc0 w0).1
      (resolveLoop name pre acc0 w0).2.
Proof.
  induction pre as [|t pre IH]; intros acc0 w0 Hnin; [done|].
  apply not_elem_of_cons in Hnin as [Hne Hnin].
  cbn [app]. rewrite !resolveLoop_cons. cbv zeta.
  destruct (String.eqb_spec t "CNAME") as [->|_]; [done|].
  cbn [andb]. by apply IH.
Qed.

(** C4: once the CNAME query has come back with answers, no further record
    type is queried for the name.  The loop leaves at ["CNAME"], whatever
    types come after it; [OverrideConfig] puts ["CNAME"] first, so that for
    the types the caller asks for, [A, CNAME] among them, the CNAME query
    is the only one issued and the request carries the CNAME answers
    alone. *)
Theorem cname_short_circuit name (a : list DNSAnswer) (w : World S) (s2 : S) :
  Resolve (pool w) (cancelled w) name "CNAME" PriorityLow = ((a, None), s2) ->
  a <> [] ->
  let w2 := emit (EvResolve name "CNAME" PriorityLow) (withPool s2 w) in
  (forall pre post acc (w0 : World S),
     "CNAME" ∉ pre -> resolveLoop name pre [] w0 = (acc, w) ->
     resolveLoop name (pre ++ "CNAME" :: post) [] w0 = (acc ++ a, w2))
  /\ (forall types, "CNAME" ∈ ToUpper <$> types ->
        resolveLoop name (overrideRecordTypes types) [] w = (a, w2))
  /\ (forall (req : DNSRequest) cfg types (w0 : World S),
        let r := set_Domain (SubdomainToDomain (pool w0) (Name req)) req in
        let gw := GetWildcardType (pool w0) (cancelled w0) r in
        Name req = name -> name <> "" -> Domain r <> "" ->
        Blacklisted cfg name = false -> isDynamic gw.1 = false ->
        w = emit (EvGetWildcardType r) (withPool gw.2 w0) ->
        RecordTypes cfg = overrideRecordTypes types ->
        "CNAME" ∈ ToUpper <$> types ->
        let w' := (processDNSRequest (Some req) cfg w0).2 in
        resolved (trace w') = resolved (trace w0) ++ ["CNAME"]
        /\ exists v, answers w' = answers w0 ++ [v]
                     /\ (v = None \/ v = Some (set_Records a r))).
Proof.
  intros Hres Hne w2.
  assert (Hlen : Nat.eqb (length a) 0 = false).
  { apply Nat.eqb_neq. by destruct a. }
  assert (Hbreak : forall post acc,
            resolveLoop name ("CNAME" :: post) acc w = (acc ++ a, w2)).
  { intros post acc. rewrite resolveLoop_cons, Hres. cbn [fst snd].
    assert (Hacc : Nat.eqb (length (acc ++ a)) 0 = false).
    { apply Nat.eqb_neq. rewrite length_app. apply Nat.eqb_neq in Hlen. lia. }
    by rewrite Hacc. }
  assert (Hfirst : forall types, "CNAME" ∈ ToUpper <$> types ->
            resolveLoop name (overrideRecordTypes types) [] w = (a, w2)).
  { intros types Hin.
    destruct (overrideRecordTypes_cname_first types Hin) as [rest ->].
    apply (Hbreak rest []). }
  split; [|split; [exact Hfirst|]].
  - intros pre post acc w0 Hnin Hpre.
    rewrite resolveLoop_app by done. rewrite Hpre. apply Hbreak.
  - intros req cfg types w0 r gw Hname Hnonempty Hdom Hbl Hdyn Hw Hcfg Hin w'.
    subst w'. rewrite processDNSRequest_paths. cbv zeta. fold r. fold gw.
    rewrite Hname.
    destruct (String.eqb_spec name "") as [|_]; [done|].
    destruct (String.eqb_spec (Domain r) "") as [|_]; [done|].
    rewrite Hbl, Hdyn, <- Hw, Hcfg, (Hfirst types Hin). cbn [fst snd].
    rewrite Hlen, finish_trace, finish_answers. cbn [trace answers emit withPool].
    subst w2 w. cbn [trace answers emit withPool].
    rewrite !resolved_app. cbn [resolved omap list_omap app].
    rewrite !app_nil_r. split; [done|].
    eexists. split; [done|]. destruct (MatchesWildcard _ _ _).1; auto.
Qed.


(** C7: an error of [Resolve] adds nothing to the answers and the loop
    handles the type as one without answers; a name that passed the checks
    is answered with nil when no answer was gathered or the pool finds the
    answers to match the wildcard, and with the request and all its answers
    otherwise. *)
Theorem resolve_errors_absorbed (req : DNSRequest) cfg (w : World S) :
  (forall name t ts acc (w0 : World S) a e s1,
     Resolve (pool w0) (cancelled w0) name t PriorityLow = ((a, Some e), s1) ->
     resolveLoop name (t :: ts) acc w0 =
       let w1 := emit (EvResolve name t PriorityLow) (withPool s1 w0) in
       if String.eqb t "CNAME" && negb (Nat.eqb (length acc) 0) then (acc, w1)
       else resolveLoop name ts acc w1)
  /\ (let r := set_Domain (SubdomainToDomain (pool w) (Name req)) req in
      let gw := GetWildcardType (pool w) (cancelled w) r in
      Name req <> "" -> Domain r <> "" -> Blacklisted cfg (Name req) = false ->
      isDynamic gw.1 = false ->
      let rl := resolveLoop (Name req) (RecordTypes cfg) []
                  (emit (EvGetWildcardType r) (withPool gw.2 w)) in
      let r2 := set_Records rl.1 r in
      answers (processDNSRequest (Some req) cfg w).2 =
        answers w ++
          [if Nat.eqb (length rl.1) 0
              || (MatchesWildcard (pool rl.2) (cancelled rl.2) r2).1
           then None else Some r2]).
Proof.
  split.
  - intros name t ts acc w0 a e s1 Hres. by rewrite resolveLoop_cons, Hres.
  - intros r gw Hname Hdom Hbl Hdyn rl r2.
    rewrite processDNSRequest_paths. cbv zeta. fold r. fold gw.
    destruct (String.eqb_spec (Name req) "") as [|_]; [done|].
    destruct (String.eqb_spec (Domain r) "") as [|_]; [done|].
    rewrite Hbl, Hdyn. fold rl. fold r2.
    destruct (resolveLoop_queries (Name req) (RecordTypes cfg) []
                (emit (EvGetWildcardType r) (withPool gw.2 w)))
      as (queried & _ & (_ & Ha & _ & _) & _).
    fold rl in Ha. cbn [answers emit withPool] in Ha.
    destruct (Nat.eqb (length rl.1) 0); cbn [orb].
    + by rewrite finish_answers, Ha.
    + rewrite finish_answers. cbn [answers emit withPool]. by rewrite Ha.
Qed.

End RequestFacts.

(** C3 on the scenario: the blacklisted name, the name outside the domains
    and the name under the dynamic wildcard. *)
Lemma rejected_before_any_query_witness :
  let cfg := Scenario.cfg ["a"; "cname"] [] in
  let run name := (processDNSRequest (Scenario.request name) cfg Scenario.world0).2 in
  answers (run "blocked.example.com") = [None]
  /\ answers (run "www.example.net") = [None]
  /\ answers (run "a.dyn.example.org") = [None]
  /\ exists evs, trace (run "a.dyn.example.org") = evs /\ count isResolve evs = 0.
Proof.
  intros cfg run.
  pose proof (rejected_before_any_query
    {| Name := "blocked.example.com"; Domain := ""; Records := [] |} cfg
    Scenario.world0 (or_intror (or_introl eq_refl))) as [H1 _].
  pose proof (rejected_before_any_query
    {| Name := "www.example.net"; Domain := ""; Records := [] |} cfg
    Scenario.world0 (or_introl eq_refl)) as [H2 _].
  pose proof (rejected_before_any_query
    {| Name := "a.dyn.example.org"; Domain := ""; Records := [] |} cfg
    Scenario.world0 (or_intror (or_intror eq_refl))) as [H3 H4].
  split; [exact H1|]. split; [exact H2|]. split; [exact H3|exact H4].
Defined.


(** ** The run as a whole *)

Section RunFacts.
Context {S : Type} {HP : Pool S} {HC : ConfigMethods}.

Lemma selectCase_i d sig :
  i match selectCase d sig with Continue d' | Return d' | Panic d' => d' end
  = if isAnswer sig then Datatypes.S (i d) else i d.
Proof.
  destruct sig; simpl; try done.
  - by destruct (first d), (active d).
  - by destruct (printPanics req).
Qed.

Lemma deliver_world sig (r : Run S) : world (deliver sig r) = world r.
Proof. unfold deliver. by destruct (selectCase _ _). Qed.

Lemma deliver_fields sig (r : Run S) :
  names (deliver sig r) = names r /\ spawned (deliver sig r) = spawned r
  /\ done (deliver sig r) = done r
  /\ i (detector (deliver sig r))
     = if isAnswer sig then Datatypes.S (i (detector r)) else i (detector r).
Proof.
  pose proof (selectCase_i (detector r) sig) as Hi.
  unfold deliver. by destruct (selectCase _ _).
Qed.

Lemma balanced_deliver cfg sig (r : Run S) :
  isAnswer sig = false -> balanced cfg r -> balanced cfg (deliver sig r).
Proof.
  intros Hsig. unfold balanced. cbv zeta.
  destruct (deliver_fields sig r) as (-> & -> & -> & ->).
  by rewrite deliver_world, Hsig.
Qed.

Lemma balanced_launch cfg name rest (r : Run S) :
  names r = name :: rest -> balanced cfg r -> balanced cfg (launch name rest r).
Proof.
  intros Hnames (H1 & H2 & H3 & H4 & H5 & H6 & H7). unfold balanced. cbv zeta.
  rewrite Hnames in H5.
  cbn [launch world names spawned done detector acquire snd emit trace held
       answers cancelled].
  rewrite !count_app, !length_app.
  cbn [count filter list_filter isSend isRelease isAcquire length].
  unfold count in *. simpl in *.
  repeat split; try done; lia.
Qed.

Lemma balanced_ext cfg (r r' : Run S) :
  world r' = world r -> names r' = names r -> spawned r' = spawned r ->
  done r' = done r -> detector r' = detector r ->
  balanced cfg r -> balanced cfg r'.
Proof. unfold balanced. by intros -> -> -> -> ->. Qed.

Lemma balanced_cancel cfg (r : Run S) :
  done r = true -> balanced cfg r ->
  balanced cfg (withAdmission Left (withWorld (cancel (world r)).2 r)).
Proof.
  intros Hdone (H1 & H2 & H3 & H4 & H5 & H6 & H7). unfold balanced.
  cbn [withAdmission withWorld cancel snd world names spawned done detector
       trace answers held cancelled].
  by repeat split.
Qed.

Lemma balanced_step cfg (r : Run S) e : balanced cfg r -> balanced cfg (step cfg r e).
Proof.
  intros Hb. unfold step. destruct (over cfg r); [done|].
  destruct e.
  - destruct (Z.ltb_spec 0 (Timeout cfg)); [|done].
    destruct Hb as (H1 & H2 & H3 & H4 & H5 & H6 & H7).
    unfold balanced. cbn. by repeat split.
  - unfold admissionStep.
    destruct (admission r); destruct (names r) as [|name rest] eqn:Hnames;
      try done.
    + destruct (done r) eqn:Hdone; [by apply balanced_cancel|].
      destruct (ticketFree cfg r); [by apply balanced_launch|].
      by apply (balanced_ext cfg r).
    + destruct (ticketFree cfg r); [by apply balanced_launch|done].
  - destruct (spawned r !! k) as [req|] eqn:Hk; [|done].
    destruct (Z.ltb _ answersCap); [|done].
    destruct Hb as (H1 & H2 & H3 & H4 & H5 & H6 & H7).
    destruct (processDNSRequest_one_signal (Some req) cfg (world r))
      as (v & evs & Ht & Hall & Ha & Hh & Hc).
    pose proof (lookup_lt_Some _ _ _ Hk) as Hlt.
    unfold balanced. cbn [world names spawned done detector].
    rewrite Ht, Ha, Hh, Hc, !count_app, !length_app, length_delete by eauto.
    rewrite !(count_poolCalls _ evs) by (done || by intros []).
    cbn [count filter list_filter isSend isRelease isAcquire length].
    unfold count in *. simpl.
    repeat split; try done; lia.
  - destruct (done r); [by apply balanced_deliver|done].
  - by apply balanced_deliver.
  - by apply balanced_deliver.
  - destruct (answers (world r)) as [|v rest] eqn:Hans; [done|].
    destruct Hb as (H1 & H2 & H3 & H4 & H5 & H6 & H7).
    rewrite Hans in H3. unfold balanced. cbv zeta.
    destruct (deliver_fields (SigAnswer v)
                (withWorld {| pool := pool (world r); held := held (world r);
                              answers := rest; cancelled := cancelled (world r);
                              trace := trace (world r) |} r))
      as (-> & -> & -> & ->).
    rewrite deliver_world. unfold count in *. cbn in *.
    repeat split; try done; lia.
Qed.

Lemma balanced_start cfg (s : S) : balanced cfg (start cfg s).
Proof. unfold balanced. cbn. repeat split; done. Qed.

Lemma balanced_foldl cfg sch : forall r : Run S,
  balanced cfg r -> balanced cfg (foldl (step cfg) r sch).
Proof.
  induction sch as [|e sch IH]; intros r Hb; [done|].
  cbn [foldl]. by apply IH, balanced_step.
Qed.

(** The books of every run are balanced. *)
Lemma performResolutions_balanced cfg (s : S) sch :
  balanced cfg (performResolutions cfg s sch).
Proof. apply balanced_foldl, balanced_start. Qed.

(** C2, amended: whatever the request and the replies of the pool,
    [processDNSRequest] ends with one send on the answer channel followed
    by the release of its ticket, and touches neither before.  Hence in
    every state of every run every admission is accounted for once: its
    answer has been received by [processDNSAnswers], or waits in the
    channel, or its resolution has not sent yet; no more tickets have been
    given back than values sent, and no more values sent than tickets
    taken.  The answers received are never more than the admissions, and
    they are as many exactly when no resolution is under way and the
    channel is empty; the run need not get there. *)
Theorem one_terminal_signal_per_admission req cfg (w : World S) (s : S)
    (sch : list Sched) :
  (let w' := (processDNSRequest req cfg w).2 in
   exists v evs,
     trace w' = trace w ++ evs ++ [EvSend v; EvRelease]
     /\ count isSend evs = 0 /\ count isRelease evs = 0
     /\ answers w' = answers w ++ [v]
     /\ held w' = (held w - 1)%Z)
  /\ (let r := performResolutions cfg s sch in
      let tr := trace (world r) in
      count isAcquire tr
      = i (detector r) + length (answers (world r)) + length (spawned r)
      /\ count isRelease tr <= count isSend tr <= count isAcquire tr
      /\ count isAcquire tr <= length (ProvidedNames cfg)
      /\ i (detector r) <= count isAcquire tr
      /\ (i (detector r) = count isAcquire tr
          <-> spawned r = [] /\ answers (world r) = [])).
Proof.
  split.
  - destruct (processDNSRequest_one_signal req cfg w)
      as (v & evs & Ht & Hall & Ha & Hh & _).
    exists v, evs. rewrite !(count_poolCalls _ evs) by (done || by intros []).
    done.
  - destruct (performResolutions_balanced cfg s sch)
      as (H1 & H2 & H3 & H4 & H5 & _).
    cbv zeta. repeat split; try lia.
    + apply length_zero_iff_nil. lia.
    + apply length_zero_iff_nil. lia.
    + intros [Hs Ha]. rewrite Hs, Ha in *. simpl in *. lia.
Qed.

Lemma quiet_deliver sig (r : Run S) :
  done r = false /\ cancelled (world r) = false ->
  done (deliver sig r) = false /\ cancelled (world (deliver sig r)) = false.
Proof.
  destruct (deliver_fields sig r) as (_ & _ & -> & _). by rewrite deliver_world.
Qed.

Lemma quiet_step cfg (r : Run S) e :
  e <> TimerFires ->
  done r = false /\ cancelled (world r) = false ->
  done (step cfg r e) = false /\ cancelled (world (step cfg r e)) = false.
Proof.
  intros He Hr. unfold step. destruct (over cfg r); [done|].
  destruct e; [done| | |..].
  - destruct Hr as [Hd Hc]. unfold admissionStep.
    destruct (admission r); destruct (names r) as [|name rest]; try done.
    + rewrite Hd. by destruct (ticketFree cfg r).
    + by destruct (ticketFree cfg r).
  - destruct (spawned r !! k) as [req|]; [|done].
    destruct (Z.ltb _ answersCap); [|done].
    destruct (processDNSRequest_one_signal (Some req) cfg (world r))
      as (v & evs & _ & _ & _ & _ & Hcan).
    cbn [done world]. by rewrite Hcan.
  - by rewrite (proj1 Hr).
  - by apply quiet_deliver.
  - by apply quiet_deliver.
  - destruct (answers (world r)) as [|v rest]; [done|]. by apply quiet_deliver.
Qed.

(** [cancel()] is called by the admission goroutine alone, and only when it
    finds [done] closed: a run in which the timer does not fire never
    cancels the context, however it ends. *)
Lemma no_cancel_without_timer cfg (s : S) sch :
  TimerFires ∉ sch ->
  cancelled (world (performResolutions cfg s sch)) = false.
Proof.
  unfold performResolutions.
  assert (Hgen : forall r : Run S, TimerFires ∉ sch ->
            done r = false /\ cancelled (world r) = false ->
            cancelled (world (foldl (step cfg) r sch)) = false).
  { induction sch as [|e sch IH]; intros r Hnin Hr; [by destruct Hr|].
    apply not_elem_of_cons in Hnin as [Hne Hnin].
    cbn [foldl]. apply IH; [done|]. by apply quiet_step. }
  intros Hnin. by apply Hgen.
Qed.

(** C8, amended: the admission does not look at the name, so the empty
    name takes a ticket like any other; its resolution then sends nil and
    gives the ticket back without a single call to the pool, and the nil is
    counted by [processDNSAnswers]. *)
Theorem empty_name_dropped_after_admission (req : DNSRequest) cfg
    (w : World S) (r : Run S) (rest : list string) (d : Detector) :
  Name req = "" ->
  (over cfg r = false -> admission r = AtSelect -> names r = Name req :: rest ->
   done r = false -> ticketFree cfg r = true ->
   trace (world (step cfg r AdmitNext)) = trace (world r) ++ [EvAcquire]
   /\ held (world (step cfg r AdmitNext)) = (held (world r) + 1)%Z
   /\ spawned (step cfg r AdmitNext)
      = spawned r ++ [{| Name := Name req; Domain := ""; Records := [] |}])
  /\ (processDNSRequest (Some req) cfg w).2 = finish None w
  /\ trace (processDNSRequest (Some req) cfg w).2
     = trace w ++ [EvSend None; EvRelease]
  /\ pool (processDNSRequest (Some req) cfg w).2 = pool w
  /\ selectCase d (SigAnswer None)
     = Continue {| first := false; active := true; i := Datatypes.S (i d);
                   printed := printed d |}.
Proof.
  intros Hname.
  assert (Hfin : (processDNSRequest (Some req) cfg w).2 = finish None w).
  { rewrite processDNSRequest_paths. by rewrite Hname. }
  split; [|split; [exact Hfin|split; [|split]]].
  - intros Hover Hadm Hnames Hdone Hfree.
    unfold step, admissionStep. by rewrite Hover, Hadm, Hnames, Hdone, Hfree.
  - by rewrite Hfin, finish_trace.
  - by rewrite Hfin.
  - simpl. by rewrite app_nil_r.
Qed.

End RunFacts.

(** ** The scenarios *)

Lemma cname_asked : "CNAME" ∈ ToUpper <$> ["a"; "cname"].
Proof. apply list_elem_of_further, list_elem_of_here. Qed.

(** C4 on the scenario of the design document: the types [A, CNAME],
    [www.example.com] an alias of [cdn.example.com].  The CNAME query is the
    only one and its answer the only record. *)
Lemma cname_short_circuit_witness :
  let w' := (processDNSRequest (Scenario.request "www.example.com")
               (Scenario.cfg ["a"; "cname"] []) Scenario.world0).2 in
  resolved (trace w') = ["CNAME"]
  /\ exists v, answers w' = [v]
       /\ (v = None
           \/ v = Some {| Name := "www.example.com"; Domain := "example.com";
                          Records := [Scenario.cname] |}).
Proof.
  pose (www := Scenario.named "www.example.com").
  pose (r := set_Domain "example.com" www).
  pose (w := emit (EvGetWildcardType r) (withPool 1 Scenario.world0)).
  assert (Hne : [Scenario.cname] <> []) by discriminate.
  assert (Hcname : Resolve (pool w) (cancelled w) "www.example.com" "CNAME"
                     PriorityLow = (([Scenario.cname], None), 2)) by reflexivity.
  destruct (cname_short_circuit "www.example.com" [Scenario.cname] w 2 Hcname Hne)
    as (_ & _ & Hreq).
  apply (Hreq www (Scenario.cfg ["a"; "cname"] []) ["a"; "cname"] Scenario.world0);
    try reflexivity; try discriminate.
  exact cname_asked.
Defined.

(** C2, as stated, fails on the code: the answers received need not be
    as many as the admissions.  With three names admitted and one answer
    received, two ticks without activity make [processDNSAnswers] return;
    with three names admitted and no answer received, the timer does.  In
    both runs the command is over and two or three resolutions have sent
    nothing. *)
Lemma received_fewer_than_admitted_counterexample :
  let cfg := Scenario.cfg ["a"] Scenario.names in
  let drained := performResolutions cfg 0
                   [AdmitNext; AdmitNext; AdmitNext; Work 0; OnAnswer;
                    OnTick; OnTick] in
  let timed := performResolutions (Scenario.timed ["a"] Scenario.names 1) 0
                 [AdmitNext; AdmitNext; AdmitNext; TimerFires; OnDone] in
  (returned drained = true /\ over cfg drained = true
   /\ count isAcquire (trace (world drained)) = 3 /\ i (detector drained) = 1
   /\ length (spawned drained) = 2)
  /\ (returned timed = true
      /\ count isAcquire (trace (world timed)) = 3 /\ i (detector timed) = 0
      /\ length (spawned timed) = 3).
Proof. vm_compute. repeat split. Qed.

(** C2 on the scenario: two names admitted, resolved and received, in a
    run that ends because all answers have been counted; and the same
    names with one answer still in the channel. *)
Lemma one_terminal_signal_per_admission_witness :
  let cfg := Scenario.cfg ["a"] ["mail.example.com"; "gone.example.com"] in
  let r := performResolutions cfg 0
             [AdmitNext; AdmitNext; Work 1; Work 0; OnAnswer; OnAnswer] in
  let r1 := performResolutions cfg 0
              [AdmitNext; AdmitNext; Work 1; Work 0; OnAnswer] in
  (spawned r = [] /\ answers (world r) = []
   /\ i (detector r) = count isAcquire (trace (world r))
   /\ i (detector r) = 2)
  /\ (i (detector r1) = 1 /\ length (answers (world r1)) = 1
      /\ i (detector r1) <> count isAcquire (trace (world r1))).
Proof.
  intros cfg r r1. split.
  - destruct (one_terminal_signal_per_admission None cfg Scenario.world0 0
                [AdmitNext; AdmitNext; Work 1; Work 0; OnAnswer; OnAnswer])
      as (_ & _ & _ & _ & _ & Hall).
    split; [reflexivity|]. split; [reflexivity|].
    split; [exact (proj2 Hall (conj eq_refl eq_refl))|reflexivity].
  - destruct (one_terminal_signal_per_admission None cfg Scenario.world0 0
                [AdmitNext; AdmitNext; Work 1; Work 0; OnAnswer])
      as (_ & _ & _ & _ & _ & Hall).
    split; [reflexivity|]. split; [reflexivity|].
    intros Heq. destruct (proj1 Hall Heq) as [_ Hnil]. discriminate Hnil.
Defined.


(** C6 fails on the code.  A run that the detector ends after two idle
    ticks, and a run that the timer ends once all names are admitted, both
    return with resolutions under way and the context not cancelled; the
    context is cancelled only when the admission goroutine finds [done]
    closed on its way to the next name. *)
Lemma run_ends_without_cancel :
  let drained := performResolutions (Scenario.cfg ["a"] Scenario.names) 0
                   [AdmitNext; AdmitNext; Work 0; OnAnswer; OnTick; OnTick] in
  let late := performResolutions (Scenario.timed ["a"] Scenario.names 1) 0
                [AdmitNext; AdmitNext; AdmitNext; AdmitNext; TimerFires; OnDone] in
  let early := performResolutions (Scenario.timed ["a"] Scenario.names 1) 0
                 [AdmitNext; TimerFires; AdmitNext] in
  (returned drained = true /\ cancelled (world drained) = false
   /\ spawned drained = [Scenario.named "www.example.com"])
  /\ (returned late = true /\ cancelled (world late) = false
      /\ length (spawned late) = 3)
  /\ cancelled (world early) = true.
Proof. vm_compute. repeat split. Qed.

(** C7 on the scenario: [gone.example.com] has no record, the error of its
    only query leaves it without answers and nil is sent; for
    [mail.example.com] the CNAME query fails, the A query is still made and
    its answer is sent. *)
Lemma resolve_errors_absorbed_witness :
  answers (processDNSRequest (Scenario.request "gone.example.com")
             (Scenario.cfg ["a"] []) Scenario.world0).2 = [None]
  /\ answers (processDNSRequest (Scenario.request "mail.example.com")
                (Scenario.cfg ["cname"; "a"] []) Scenario.world0).2
     = [Some {| Name := "mail.example.com"; Domain := "example.com";
                Records := [{| ans_Type := 1; ans_Data := "10.0.0.2" |}] |}].
Proof.
  split.
  - pose proof (proj2 (resolve_errors_absorbed (Scenario.named "gone.example.com")
                         (Scenario.cfg ["a"] []) Scenario.world0)) as Hgone.
    cbv zeta in Hgone.
    exact (Hgone ltac:(discriminate) ltac:(discriminate) eq_refl eq_refl).
  - pose proof (proj2 (resolve_errors_absorbed (Scenario.named "mail.example.com")
                         (Scenario.cfg ["cname"; "a"] []) Scenario.world0)) as Hmail.
    cbv zeta in Hmail.
    exact (Hmail ltac:(discriminate) ltac:(discriminate) eq_refl eq_refl).
Defined.

(** C8, as stated, fails on the code: the empty name is not dropped before
    a ticket is taken.  The first thing a run does with it is to acquire a
    ticket; the nil is sent only afterwards. *)
Lemma empty_name_acquires_ticket :
  let cfg := Scenario.cfg ["a"] [""] in
  trace (world (performResolutions cfg 0 [AdmitNext])) = [EvAcquire]
  /\ trace (world (performResolutions cfg 0 [AdmitNext; Work 0]))
     = [EvAcquire; EvSend None; EvRelease]
  /\ count isAcquire (trace (world (performResolutions cfg 0 [AdmitNext; Work 0]))) <> 0.
Proof. vm_compute. repeat split; discriminate. Qed.

(** C8 on the scenario: the run of the single name [""]. *)
Lemma empty_name_witness :
  let cfg := Scenario.cfg ["a"] [""] in
  Name (Scenario.named "") = ""
  /\ trace (world (step cfg (start cfg 0) AdmitNext)) = [EvAcquire]
  /\ trace (processDNSRequest (Scenario.request "") cfg Scenario.world0).2
     = [EvSend None; EvRelease]
  /\ pool (processDNSRequest (Scenario.request "") cfg Scenario.world0).2 = 0.
Proof.
  intros cfg.
  destruct (empty_name_dropped_after_admission (Scenario.named "") cfg
              Scenario.world0 (start cfg 0) [] detector0 eq_refl)
    as (Hadmit & _ & Htrace & Hpool & _).
  destruct (Hadmit eq_refl eq_refl eq_refl eq_refl eq_refl) as (Hacq & _).
  split; [reflexivity|]. split; [exact Hacq|]. split; [exact Htrace|exact Hpool].
Defined.

(** ** The WhoisXML source *)

Section SourceFacts.
Import Sources.
#[local] Open Scope Z_scope.
Variable IsDomainInScope : string -> bool.

Lemma Truncate_le t d : Truncate t d <= t.
Proof.
  unfold Truncate. destruct (Z.leb_spec d 0); [lia|].
  pose proof (Z.mod_pos_bound t d). lia.
Qed.

Lemma last_snoc_Some (qs : list Query) q :
  List.last (Some <$> (qs ++ [q])) None = Some q.
Proof. rewrite fmap_app. apply List.last_last. Qed.

Lemma last_lookup_pred (qs : list Query) k q :
  S k = length qs -> qs !! k = Some q ->
  List.last (Some <$> qs) None = Some q.
Proof.
  intros Hk Hq. destruct (List.exists_last (l := qs)) as (qs' & q' & ->).
  { intros ->. simpl in Hk. lia. }
  rewrite length_app in Hk. simpl in Hk.
  rewrite last_snoc_Some. rewrite lookup_app_r in Hq by lia.
  replace (k - length qs')%nat with 0%nat in Hq by lia. exact Hq.
Qed.

(** One [select] keeps the pace. *)
Lemma selectCase_paced w st a :
  monotone a -> paced IsDomainInScope w st ->
  paced IsDomainInScope w
    match selectCase IsDomainInScope w st a with Continue st' | Return st' => st' end.
Proof.
  intros (Hwait & Hlag & Htook) (Hscope & Hgap & Hlast & Hnow).
  assert (Hidle : paced IsDomainInScope w
            {| now := now st + waited a; last := last st; queries := queries st |}).
  { repeat split; try done. simpl. lia. }
  unfold selectCase. cbv zeta. destruct (msg a) as [|d| |]; try exact Hidle.
  destruct (IsDomainInScope d) eqn:Hd; [|exact Hidle].
  unfold sleep.
  set (t1 := (if Z.ltb (now st + waited a - last st) (RateLimit w)
              then now st + waited a + RateLimit w else now st + waited a) + lag a).
  assert (Ht1 : last st + RateLimit w <= t1).
  { subst t1. destruct (Z.ltb_spec (now st + waited a - last st) (RateLimit w)); lia. }
  unfold paced. cbn [queries last now].
  split; [|split; [|split]].
  - apply Forall_app. split; [done|]. by repeat constructor.
  - intros k q1 q2 Hq1 Hq2.
    destruct (decide (S k < length (queries st))%nat) as [Hlt|Hge].
    + rewrite lookup_app_l in Hq1 by lia. rewrite lookup_app_l in Hq2 by lia.
      by apply (Hgap k).
    + pose proof (lookup_lt_Some _ _ _ Hq2) as Hlen.
      rewrite length_app in Hlen. simpl in Hlen.
      assert (Hk : S k = length (queries st)) by lia.
      rewrite lookup_app_l in Hq1 by lia.
      rewrite lookup_app_r in Hq2 by lia.
      replace (S k - length (queries st))%nat with 0%nat in Hq2 by lia.
      injection Hq2 as <-. cbn [started].
      rewrite (Hlast q1 (last_lookup_pred _ _ _ Hk Hq1)). lia.
  - intros q. rewrite last_snoc_Some. by intros [= <-].
  - lia.
Qed.

Lemma requestsLoop_paced w arrivals : forall st,
  Forall monotone arrivals -> paced IsDomainInScope w st ->
  paced IsDomainInScope w (requestsLoop IsDomainInScope w st arrivals).
Proof.
  induction arrivals as [|a arrivals IH]; intros st Hmono Hst; [done|].
  apply Forall_cons in Hmono as [Ha Hmono].
  pose proof (selectCase_paced w st a Ha Hst) as Hstep.
  cbn [requestsLoop]. destruct (selectCase IsDomainInScope w st a); [by apply IH|done].
Qed.

(** C9: the loop calls [executeWhoisQuery] for domains in scope only, and
    from the end of one call to the start of the next (and so from start to
    start) at least [RateLimit] goes by, which [NewWhoisXML] sets to ten
    seconds.  The clock is taken not to run backwards and [time.Sleep] to
    pause for at least what it is asked. *)
Theorem whoisxml_rate_limit (w : WhoisXML) (t0 : Z) (arrivals : list Arrival)
    (api : string) :
  Forall monotone arrivals ->
  let qs := queries (processRequests IsDomainInScope w t0 arrivals) in
  Forall (fun q => IsDomainInScope (domain q) = true) qs
  /\ (forall k q1 q2, qs !! k = Some q1 -> qs !! S k = Some q2 ->
        RateLimit w <= started q2 - ended q1)
  /\ RateLimit (NewWhoisXML api) = 10 * Second.
Proof.
  intros Hmono qs.
  assert (H0 : paced IsDomainInScope w
            {| now := t0; last := Truncate t0 (10 * Minute); queries := [] |}).
  { split; [by constructor|]. split; [by intros k q1 q2 Hq1|].
    split; [by intros q Hq|apply Truncate_le]. }
  destruct (requestsLoop_paced w arrivals _ Hmono H0) as (Hscope & Hgap & _).
  split; [exact Hscope|]. split; [exact Hgap|reflexivity].
Qed.

(** C10: [getReverseWhoisURL] returns the one URL whatever the domain (and
    whatever the service), so that every request of [executeWhoisQuery]
    goes to that URL. *)
Theorem reverse_whois_url_constant (w : WhoisXML) (domain : string)
    (reply : Reply) :
  let u := "https://reverse-whois-api.whoisxmlapi.com/api/v2"%string in
  getReverseWhoisURL w domain = u
  /\ Forall (fun act => match act with Post u' _ _ => u' = u | _ => True end)
       (executeWhoisQuery w domain reply).
Proof.
  split; [reflexivity|].
  unfold executeWhoisQuery. destruct (API w) as [key|]; [|by repeat constructor].
  destruct (String.eqb (Key key) ""); [by repeat constructor|].
  constructor; [reflexivity|].
  destruct reply as [| |Found List]; try by repeat constructor.
  destruct (Z.ltb 0 Found); by repeat constructor.
Qed.

End SourceFacts.

(** C9 on the scenario: of three requests a second apart the one out of
    scope is not queried for, and the second query starts more than ten
    seconds after the end of the first. *)
Lemma whoisxml_rate_limit_witness :
  let w := Sources.NewWhoisXML "api" in
  let qs := Sources.queries
              (Sources.processRequests Scenario.inScope w 1700000000000000000
                 Scenario.arrivals) in
  Forall Sources.monotone Scenario.arrivals
  /\ Sources.domain <$> qs = ["example.com"; "example.com"]
  /\ forall q1 q2, qs !! 0%nat = Some q1 -> qs !! 1%nat = Some q2 ->
       (10 * Sources.Second <= Sources.started q2 - Sources.ended q1)%Z.
Proof.
  intros w qs.
  assert (Hmono : Forall Sources.monotone Scenario.arrivals).
  { repeat constructor; vm_compute; discriminate. }
  destruct (whoisxml_rate_limit Scenario.inScope w 1700000000000000000
              Scenario.arrivals "api" Hmono) as (_ & Hgap & _).
  split; [exact Hmono|]. split; [reflexivity|]. exact (Hgap 0%nat).
Defined.

(** * Further properties of the code *)

(** ** [processDNSAnswers] *)

Section DetectorMore.

Lemma waiting_prefix l pre sigs : forall d d',
  answersLoop l d (pre ++ sigs) = Waiting d' ->
  exists d'', answersLoop l d pre = Waiting d''.
Proof.
  induction pre as [|s pre IH]; intros d d' Hw.
  - simpl in *. destruct sigs; simpl in Hw;
      destruct (Nat.ltb (i d) l); try discriminate; eauto.
  - simpl in *. destruct (Nat.ltb (i d) l); [|discriminate].
    destruct (selectCase d s); try discriminate. by eapply IH.
Qed.

(** X1: as long as no answer has been received, no number of ticks and
    liveness pulses makes the detector return: it waits, in its initial
    state. *)
Theorem no_drain_before_first_answer (l : nat) (sigs : list Signal) :
  0 < l ->
  Forall (fun s => s = SigTick \/ s = SigActive) sigs ->
  answersLoop l detector0 sigs = Waiting detector0.
Proof.
  intros Hl Hall. apply Nat.ltb_lt in Hl.
  induction Hall as [|s sigs [->| ->] _ IH]; simpl; rewrite Hl; done.
Qed.

Lemma no_drain_before_first_answer_witness :
  answersLoop 3 detector0 [SigTick; SigActive; SigTick; SigTick; SigTick]
  = Waiting detector0.
Proof.
  apply no_drain_before_first_answer; [lia|].
  repeat (apply List.Forall_cons; [(by left) || (by right)|]).
  apply List.Forall_nil.
Defined.

(** X2: a detector that waits returns at the next tick exactly when the
    last case it took was itself a tick and an answer had been received
    before that tick; any pulse or answer in between puts the return off. *)
Theorem drain_exactly_at_second_idle_tick (l : nat) (pre : list Signal)
    (d : Detector) :
  answersLoop l detector0 pre = Waiting d ->
  (answersLoop l detector0 (pre ++ [SigTick]) = Returned d []
   <-> exists pre', pre = pre' ++ [SigTick] /\ existsb isAnswer pre' = true)
  /\ (answersLoop l detector0 (pre ++ [SigTick]) = Returned d []
      \/ exists d', answersLoop l detector0 (pre ++ [SigTick]) = Waiting d').
Proof.
  intros Hw.
  pose proof (answersLoop_waiting_lt _ _ _ _ Hw) as Hlt.
  assert (Hinv : first d = true -> active d = true).
  { apply (waiting_first_active l pre detector0); [reflexivity|exact Hw]. }
  assert (Hnil : forall d', i d' < l -> answersLoop l d' [] = Waiting d').
  { intros d' Hd'. simpl. by apply Nat.ltb_lt in Hd' as ->. }
  assert (Htick : answersLoop l detector0 (pre ++ [SigTick]) =
            if first d then Waiting d
            else if active d then Waiting (set_active false d) else Returned d []).
  { rewrite (answersLoop_app _ _ _ _ _ Hw), answersLoop_tick by done.
    destruct (first d); [by apply Hnil|]. destruct (active d); [|done].
    by apply Hnil. }
  assert (Hactive : active d = false <->
            exists pre', pre = pre' ++ [SigTick] /\ existsb isAnswer pre' = true).
  { clear Htick. destruct (decide (pre = [])) as [->|Hne].
    { simpl in Hw. destruct l; [lia|]. injection Hw as <-. split; [done|].
      intros (pre' & Heq & _). by destruct pre'. }
    destruct (List.exists_last Hne) as (pre' & s & ->).
    destruct (waiting_prefix _ _ _ _ _ Hw) as [d0 Hw0].
    pose proof (answersLoop_waiting_lt _ _ _ _ Hw0) as Hlt0.
    pose proof (waiting_first _ _ _ _ Hw0) as Hfirst0. simpl in Hfirst0.
    assert (Hinv0 : first d0 = true -> active d0 = true).
    { apply (waiting_first_active l pre' detector0); [reflexivity|exact Hw0]. }
    rewrite (answersLoop_app _ _ _ _ _ Hw0) in Hw.
    destruct s.
    - simpl in Hw. apply Nat.ltb_lt in Hlt0. by rewrite Hlt0 in Hw.
    - rewrite answersLoop_tick in Hw by done.
      destruct (first d0) eqn:Hf0.
      + rewrite Hnil in Hw by done. injection Hw as <-.
        rewrite Hinv0 by done. split; [done|].
        intros (pre'' & Heq & Hans). apply app_inj_tail in Heq as [<- _].
        rewrite Hans in Hfirst0. done.
      + destruct (active d0); [|done].
        rewrite Hnil in Hw by done. injection Hw as <-. split; [|done].
        intros _. exists pre'. split; [done|].
        by destruct (existsb isAnswer pre').
    - simpl in Hw. apply Nat.ltb_lt in Hlt0. rewrite Hlt0 in Hw.
      simpl in Hw. destruct (Nat.ltb (i d0) l); [|done]. injection Hw as <-.
      split; [done|]. intros (pre'' & Heq & _).
      by apply app_inj_tail in Heq as [_ ?].
    - simpl in Hw. apply Nat.ltb_lt in Hlt0. rewrite Hlt0 in Hw.
      destruct (printPanics req); [done|]. simpl in Hw.
      match type of Hw with context [Nat.ltb ?a ?b] => destruct (Nat.ltb a b) end;
        [|done].
      injection Hw as <-. split; [done|]. intros (pre'' & Heq & _).
      by apply app_inj_tail in Heq as [_ ?]. }
  rewrite Htick. split.
  - rewrite <- Hactive. destruct (first d) eqn:Hf.
    + rewrite Hinv by done. split; done.
    + destruct (active d); split; done.
  - destruct (first d); [eauto|]. destruct (active d); eauto.
Qed.

Lemma drain_exactly_at_second_idle_tick_witness :
  let pre := [SigAnswer None; SigTick] in
  answersLoop 3 detector0 (pre ++ [SigTick])
  = Returned {| first := false; active := false; i := 1; printed := [] |} []
  /\ exists d', answersLoop 3 detector0 ([SigAnswer None; SigTick; SigActive] ++ [SigTick])
                = Waiting d'.
Proof.
  intros pre. split.
  - apply (drain_exactly_at_second_idle_tick 3 pre _ eq_refl).
    by exists [SigAnswer None].
  - destruct (drain_exactly_at_second_idle_tick 3
                [SigAnswer None; SigTick; SigActive]
                {| first := false; active := true; i := 1; printed := [] |} eq_refl)
      as [Hiff [Hret|Hwait]]; [|exact Hwait].
    apply Hiff in Hret as (pre' & Heq & _).
    by apply (app_inj_tail [SigAnswer None; SigTick] pre') in Heq as [_ ?].
Defined.

Lemma waiting_received l sigs : forall d d',
  answersLoop l d sigs = Waiting d' ->
  i d' = i d + length (received sigs)
  /\ printed d' = printed d ++ (received sigs ≫= printable).
Proof.
  induction sigs as [|s sigs IH]; intros d d'; simpl.
  - destruct (Nat.ltb (i d) l); [|discriminate]. intros [= <-].
    by rewrite Nat.add_0_r, app_nil_r.
  - destruct (Nat.ltb (i d) l); [|discriminate].
    destruct s; simpl; try discriminate.
    + destruct (first d); [apply IH|].
      destruct (active d); [|discriminate]. intros Hw. by destruct (IH _ _ Hw).
    + intros Hw. by destruct (IH _ _ Hw).
    + destruct (printPanics req); [discriminate|]. intros Hw.
      destruct (IH _ _ Hw) as [Hi Hp]. simpl in *. split; [lia|].
      by rewrite Hp, <- app_assoc.
Qed.

(** X3: every value taken from the answer channel is counted once, and a
    line is written for it exactly when it is not nil and has records: the
    counter is the number of values received, the lines written are for the
    values with records, in the order of their receipt. *)
Theorem answers_counted_and_printed (cfg : Config) (sigs : list Signal)
    (d : Detector) :
  processDNSAnswers cfg sigs = Waiting d ->
  i d = length (received sigs)
  /\ printed d = received sigs ≫= printable
  /\ Forall (fun r => Records r <> []) (printed d)
  /\ i d < length (ProvidedNames cfg).
Proof.
  intros Hw. destruct (waiting_received _ _ _ _ Hw) as [Hi Hp]. simpl in *.
  split; [done|]. split; [done|]. split.
  - rewrite Hp. apply Forall_forall. intros r Hr.
    apply list_elem_of_bind in Hr as (req & Hin & _).
    destruct req as [r'|]; simpl in Hin; [|by apply elem_of_nil in Hin].
    destruct (Nat.eqb_spec (length (Records r')) 0) as [|Hne]; simpl in Hin;
      [by apply elem_of_nil in Hin|].
    apply list_elem_of_singleton in Hin as ->. intros Hnil.
    by rewrite Hnil in Hne.
  - by apply (answersLoop_waiting_lt _ _ _ _ Hw).
Qed.

End DetectorMore.

(** ** The line written for an answer *)

Section TerminalFacts.
Context {HU : Unicode}.
Variable RemoveLastDot : string -> string.
Variable setSlice : list string -> list string.
Variables blue green yellow : string -> string.

Lemma append_assoc (a b c : string) : (a +:+ b) +:+ c = a +:+ (b +:+ c).
Proof.
  induction a as [|x a IH]; [done|].
  change (String x ((a +:+ b) +:+ c) = String x (a +:+ (b +:+ c))). by f_equal.
Qed.

Lemma Split_cons s : exists field fields, Split s = field :: fields.
Proof.
  induction s as [|c s (field & fields & IH)]; simpl; [by eauto|].
  destruct (Ascii.eqb c ","); [by eauto|]. rewrite IH. by eauto.
Qed.

(** [strings.Split(s, ",")] has a second element exactly when [s] holds a
    comma. *)
Lemma Split_second s : Split s !! 1 = None <-> hasComma s = false.
Proof.
  induction s as [|c s IH]; simpl; [done|].
  destruct (Split_cons s) as (field & fields & Hs).
  destruct (Ascii.eqb c ","); simpl.
  - rewrite Hs. done.
  - rewrite Hs in *. exact IH.
Qed.

Lemma shownData_panics rec : shownData rec = None <-> splitPanics rec = true.
Proof.
  unfold shownData, splitPanics, uint16.
  destruct (Z.eqb (ans_Type rec mod 65536) TypeNS); simpl; [|done].
  rewrite Split_second. by destruct (hasComma (ans_Data rec)).
Qed.

Lemma dataLoop_panics recs : forall j data,
  dataLoop RemoveLastDot j data recs = None <-> existsb splitPanics recs = true.
Proof.
  induction recs as [|rec recs IH]; intros j data; simpl; [done|].
  destruct (shownData rec) as [field|] eqn:Hrec; simpl.
  - rewrite IH. destruct (splitPanics rec) eqn:Hp; [|done].
    apply shownData_panics in Hp. congruence.
  - apply shownData_panics in Hrec as ->. done.
Qed.

(** X4: the line for an answer fails to be written, in a panic, exactly
    when one of its records has type NS (as a [uint16]) and data without a
    comma, which is when [processDNSAnswers] is taken to crash. *)
Theorem printLine_panics_iff (req : DNSRequest) :
  printLine RemoveLastDot setSlice blue green yellow req = None
  <-> printPanics (Some req) = true.
Proof.
  unfold printLine, printPanics, printable. cbv zeta.
  destruct (dataLoop RemoveLastDot 0 "" (Records req)) as [data|] eqn:Hdata; simpl.
  - split; [done|]. intros Hp.
    assert (Hex : existsb splitPanics (Records req) = true).
    { destruct (negb _); simpl in Hp; [|done]. by rewrite orb_false_r in Hp. }
    apply (dataLoop_panics _ 0 "") in Hex. congruence.
  - split; [|done]. intros _.
    apply dataLoop_panics in Hdata.
    destruct (Records req) as [|rec recs] eqn:Hr; [done|].
    cbn [length Nat.eqb negb existsb]. by rewrite Hr, Hdata.
Qed.

Lemma typesLoop_join strs : forall j ts,
  typesLoop (Datatypes.S j) ts strs
  = match strs with
    | [] => ts
    | _ => ts +:+ ", " +:+ String.concat ", " (ToUpper <$> strs)
    end.
Proof.
  induction strs as [|str strs IH]; intros j ts; [done|].
  cbn [typesLoop Nat.eqb]. rewrite IH.
  destruct strs as [|str' strs]; cbn [fmap list_fmap String.concat];
    by rewrite !append_assoc.
Qed.

Lemma dataLoop_join recs : forall j data fields,
  mapM shownData recs = Some fields ->
  dataLoop RemoveLastDot (Datatypes.S j) data recs
  = Some match fields with
         | [] => data
         | _ => data +:+ ", " +:+ String.concat ", " (RemoveLastDot <$> fields)
         end.
Proof.
  induction recs as [|rec recs IH]; intros j data fields Hm.
  - by injection Hm as <-.
  - cbn [mapM] in Hm. cbn [dataLoop Nat.eqb].
    destruct (shownData rec) as [field|]; [|done]. simpl in Hm.
    destruct (mapM shownData recs) as [fields'|] eqn:Hrest; [|done].
    simpl in Hm. injection Hm as <-. cbn [mbind option_bind].
    rewrite (IH _ _ fields') by done. f_equal.
    destruct fields' as [|f fs]; cbn [fmap list_fmap String.concat];
      by rewrite !append_assoc.
Qed.

(** X5: when no record makes line 295 panic, the line is the types, in
    upper case and in the order of the set's slice, between brackets and
    filled up to 24 characters, then the name, a blank, and one datum per
    record in the order of the records; within both lists the separator
    [", "] stands between neighbours only.  For an NS record the datum is
    what stands behind the first comma, up to the next. *)
Theorem printLine_layout (req : DNSRequest) (fields : list string) :
  mapM shownData (Records req) = Some fields ->
  printLine RemoveLastDot setSlice blue green yellow req
  = Some (blue (padRight24
                  ("[" +:+ String.concat ", "
                             (ToUpper <$> setSlice
                                ((fun rec => typeToName (uint16 (ans_Type rec)))
                                   <$> Records req))
                   +:+ "] "))
          +:+ green (Name req) +:+ " "
          +:+ yellow (String.concat ", " (RemoveLastDot <$> fields))
          +:+ String (ascii_of_nat 10) "").
Proof.
  intros Hm. unfold printLine. cbv zeta.
  assert (Hts : forall strs, typesLoop 0 "" strs
                             = String.concat ", " (ToUpper <$> strs)).
  { intros [|str strs]; [done|]. cbn [typesLoop Nat.eqb].
    rewrite typesLoop_join. cbn [fmap list_fmap String.concat].
    by destruct strs. }
  assert (Hdata : dataLoop RemoveLastDot 0 "" (Records req)
                  = Some (String.concat ", " (RemoveLastDot <$> fields))).
  { destruct (Records req) as [|rec recs]; [by injection Hm as <-|].
    cbn [mapM] in Hm. cbn [dataLoop Nat.eqb].
    destruct (shownData rec) as [field|]; [|done]. simpl in Hm.
    destruct (mapM shownData recs) as [fields'|] eqn:Hrest; [|done].
    simpl in Hm. injection Hm as <-. cbn [mbind option_bind].
    rewrite (dataLoop_join _ _ _ fields') by done.
    cbn [fmap list_fmap String.concat]. by destruct fields'. }
  by rewrite Hts, Hdata.
Qed.

(** X6: [typeToName] gives different names to different types that it
    knows, every name it gives is in upper case already, and a type is
    given the empty name exactly when it is none of the ten. *)
Theorem typeToName_names (a b : Z) :
  (typeToName a = typeToName b -> typeToName a <> "" -> a = b)
  /\ ToUpper (typeToName a) = typeToName a
  /\ (typeToName a = ""
      <-> a ∉ [TypeCNAME; TypeA; TypeAAAA; TypePTR; TypeNS; TypeMX; TypeTXT;
               TypeSOA; TypeSPF; TypeSRV]).
Proof.
  unfold typeToName. split; [|split].
  - repeat match goal with
           | |- context [Z.eqb a ?c] =>
               destruct (Z.eqb_spec a c) as [->|?]; cbv iota
           end;
    repeat match goal with
           | |- context [Z.eqb b ?c] =>
               destruct (Z.eqb_spec b c) as [->|?]; cbv iota
           end; done.
  - repeat match goal with
           | |- context [Z.eqb a ?c] => destruct (Z.eqb a c); cbv iota
           end; done.
  - rewrite !not_elem_of_cons.
    repeat match goal with
           | |- context [Z.eqb a ?c] =>
               destruct (Z.eqb_spec a c) as [->|?]; cbv iota
           end;
    try (split; [done|]; intros Hn; exfalso; tauto).
    split; [|done]. intros _. repeat split; try done. apply not_elem_of_nil.
Qed.

End TerminalFacts.

(** ** [processDNSRequest] *)

Section RequestMore.
Context {S : Type} {HP : Pool S} {HC : ConfigMethods}.

Lemma resolveLoop_answers name ts acc (w : World S) :
  answers (resolveLoop name ts acc w).2 = answers w
  /\ held (resolveLoop name ts acc w).2 = held w.
Proof.
  destruct (resolveLoop_queries name ts acc w) as (_ & _ & (Hh & Ha & _) & _).
  done.
Qed.

(** Without ["CNAME"] among them, all the types are queried. *)
Lemma resolveLoop_all name ts acc (w : World S) :
  "CNAME" ∉ ts ->
  resolved (trace (resolveLoop name ts acc w).2) = resolved (trace w) ++ ts.
Proof.
  intros Hnin.
  destruct (resolveLoop_queries name ts acc w)
    as (queried & Hpre & (_ & _ & _ & Ht) & Hend).
  rewrite Ht, resolved_app, resolved_resolves. f_equal.
  destruct Hend as [->|[Hlast _]]; [done|]. exfalso. apply Hnin.
  destruct Hpre as [k ->]. apply elem_of_app. left.
  apply last_Some in Hlast as [l' ->]. apply elem_of_app. right.
  apply list_elem_of_here.
Qed.

(** X7: a request on the answer channel is never half made: it has the
    name asked for, which is not empty and not blacklisted, the domain that
    the pool derives from the name, which is not empty, and at least one
    record, so that the guard of line 273 lets it through. *)
Theorem sent_request_well_formed req cfg (w : World S) (r : DNSRequest) :
  answers (processDNSRequest req cfg w).2 = answers w ++ [Some r] ->
  exists req0,
    req = Some req0
    /\ Name r = Name req0 /\ Name r <> ""
    /\ Domain r = SubdomainToDomain (pool w) (Name req0) /\ Domain r <> ""
    /\ Records r <> []
    /\ Blacklisted cfg (Name r) = false
    /\ printable (Some r) = [r].
Proof.
  assert (Hnone : forall w1 : World S, answers w1 = answers w ->
            answers (finish None w1) = answers w ++ [Some r] -> False).
  { intros w1 Ha. rewrite finish_answers, Ha. intros Heq.
    by apply app_inj_tail in Heq as [_ ?]. }
  destruct req as [req|]; [|intros Hs; exfalso; by apply (Hnone w)].
  rewrite processDNSRequest_paths. cbv zeta.
  destruct (String.eqb_spec (Name req) "") as [|Hname];
    [intros Hs; exfalso; by apply (Hnone w)|].
  set (r0 := set_Domain (SubdomainToDomain (pool w) (Name req)) req).
  destruct (String.eqb_spec (Domain r0) "") as [|Hdom];
    [intros Hs; exfalso; by apply (Hnone w)|].
  destruct (Blacklisted cfg (Name req)) eqn:Hbl;
    [intros Hs; exfalso; by apply (Hnone w)|].
  set (w1 := emit _ (withPool _ w)).
  destruct (isDynamic _); [intros Hs; exfalso; by apply (Hnone w1)|].
  destruct (resolveLoop_answers (Name req) (RecordTypes cfg) [] w1) as [Ha _].
  set (rl := resolveLoop (Name req) (RecordTypes cfg) [] w1) in *.
  destruct (Nat.eqb_spec (length rl.1) 0) as [|Hlen];
    [intros Hs; exfalso; by apply (Hnone rl.2)|].
  rewrite finish_answers. cbn [answers emit withPool]. rewrite Ha.
  cbn [answers emit withPool].
  intros Heq. apply app_inj_tail in Heq as [_ Hv].
  destruct (MatchesWildcard _ _ _).1; [done|]. injection Hv as <-.
  exists req. cbn [Name Domain Records set_Records set_Domain printable].
  repeat split; try done.
  - intros Hnil. by rewrite Hnil in Hlen.
  - apply Nat.eqb_neq in Hlen. by rewrite Hlen.
Qed.

(** X8: the calls that one resolution makes to the pool, in order: at most
    one [GetWildcardType], for the request with its domain set; then
    [Resolve] at low priority and for the name of the request, for a prefix
    of the record types; then at most one [MatchesWildcard], and never for
    a request without records. *)
Theorem pool_calls_in_order (req : DNSRequest) cfg (w : World S) :
  let r := set_Domain (SubdomainToDomain (pool w) (Name req)) req in
  exists wildcard queried matches v,
    trace (processDNSRequest (Some req) cfg w).2
    = trace w ++ wildcard
        ++ ((fun t => EvResolve (Name req) t PriorityLow) <$> queried)
        ++ matches ++ [EvSend v; EvRelease]
    /\ (wildcard = [] /\ queried = [] \/ wildcard = [EvGetWildcardType r])
    /\ queried `prefix_of` RecordTypes cfg
    /\ (matches = []
        \/ exists a, a <> [] /\ matches = [EvMatchesWildcard (set_Records a r)]).
Proof.
  intros r. rewrite processDNSRequest_paths. cbv zeta. fold r.
  assert (Hrej : exists wildcard queried matches v,
            trace (finish None w)
            = trace w ++ wildcard
                ++ ((fun t => EvResolve (Name req) t PriorityLow) <$> queried)
                ++ matches ++ [EvSend v; EvRelease]
            /\ (wildcard = [] /\ queried = [] \/ wildcard = [EvGetWildcardType r])
            /\ queried `prefix_of` RecordTypes cfg
            /\ (matches = []
                \/ exists a, a <> [] /\ matches = [EvMatchesWildcard (set_Records a r)])).
  { exists [], [], [], None. rewrite finish_trace.
    split; [done|]. split; [by left|]. split; [apply prefix_nil|by left]. }
  destruct (String.eqb (Name req) ""); [exact Hrej|].
  destruct (String.eqb (Domain r) ""); [exact Hrej|].
  destruct (Blacklisted cfg (Name req)); [exact Hrej|]. clear Hrej.
  set (gw := GetWildcardType (pool w) (cancelled w) r).
  set (w1 := emit (EvGetWildcardType r) (withPool gw.2 w)).
  destruct (isDynamic gw.1).
  { exists [EvGetWildcardType r], [], [], None. rewrite finish_trace.
    unfold w1. cbn [trace emit withPool]. rewrite <- app_assoc.
    split; [done|]. split; [by right|]. split; [apply prefix_nil|by left]. }
  destruct (resolveLoop_queries (Name req) (RecordTypes cfg) [] w1)
    as (queried & Hpre & (_ & _ & _ & Ht) & _).
  set (rl := resolveLoop (Name req) (RecordTypes cfg) [] w1) in *.
  destruct (Nat.eqb_spec (length rl.1) 0) as [|Hlen].
  - exists [EvGetWildcardType r], queried, [], None.
    rewrite finish_trace, Ht. unfold w1. cbn [trace emit withPool].
    rewrite <- !app_assoc. split; [done|]. split; [by right|]. split; [done|by left].
  - eexists [EvGetWildcardType r], queried, [EvMatchesWildcard _], _.
    rewrite finish_trace. cbn [trace emit withPool]. rewrite Ht.
    unfold w1. cbn [trace emit withPool]. rewrite <- !app_assoc.
    split; [done|]. split; [by right|]. split; [done|]. right.
    exists rl.1. split; [|done]. intros Hnil. by rewrite Hnil in Hlen.
Qed.

(** X9: when every query for a name fails, every record type is tried, in
    order, none of them being skipped, the pool is not asked about the
    wildcard match, and nil is sent. *)
Theorem all_queries_failing (req : DNSRequest) cfg (w : World S) :
  let r := set_Domain (SubdomainToDomain (pool w) (Name req)) req in
  Name req <> "" -> Domain r <> "" -> Blacklisted cfg (Name req) = false ->
  isDynamic (GetWildcardType (pool w) (cancelled w) r).1 = false ->
  (forall s ctx t, (Resolve s ctx (Name req) t PriorityLow).1.2 <> None) ->
  let w' := (processDNSRequest (Some req) cfg w).2 in
  answers w' = answers w ++ [None]
  /\ trace w' = trace w ++ [EvGetWildcardType r]
                 ++ ((fun t => EvResolve (Name req) t PriorityLow) <$> RecordTypes cfg)
                 ++ [EvSend None; EvRelease].
Proof.
  intros r Hname Hdom Hbl Hdyn Hfail w'. subst w'.
  assert (Hloop : forall ts (w0 : World S),
            (resolveLoop (Name req) ts [] w0).1 = []
            /\ answers (resolveLoop (Name req) ts [] w0).2 = answers w0
            /\ trace (resolveLoop (Name req) ts [] w0).2
               = trace w0 ++ ((fun t => EvResolve (Name req) t PriorityLow) <$> ts)).
  { induction ts as [|t ts IH]; intros w0.
    - simpl. by rewrite app_nil_r.
    - rewrite resolveLoop_cons. cbv zeta.
      specialize (Hfail (pool w0) (cancelled w0) t).
      destruct (Resolve (pool w0) (cancelled w0) (Name req) t PriorityLow)
        as [[a [e|]] s1]; [|done].
      cbn [fst snd length Nat.eqb negb]. rewrite andb_false_r.
      destruct (IH (emit (EvResolve (Name req) t PriorityLow) (withPool s1 w0)))
        as (H1 & H2 & H3).
      rewrite H1, H2, H3. cbn [answers trace emit withPool fmap list_fmap].
      by rewrite <- app_assoc. }
  rewrite processDNSRequest_paths. cbv zeta. fold r.
  destruct (String.eqb_spec (Name req) "") as [|_]; [done|].
  destruct (String.eqb_spec (Domain r) "") as [|_]; [done|].
  rewrite Hbl, Hdyn.
  set (w1 := emit (EvGetWildcardType r) _).
  destruct (Hloop (RecordTypes cfg) w1) as (H1 & H2 & H3).
  rewrite H1. cbn [length Nat.eqb].
  rewrite finish_answers, finish_trace, H2, H3. unfold w1.
  cbn [answers trace emit withPool]. by rewrite <- !app_assoc.
Qed.

(** X10: the loop leaves behind ["CNAME"] on the answers gathered so far,
    not on those of the CNAME query: once a type in front of ["CNAME"] has
    given an answer, the types behind it are not queried, whatever the
    CNAME query returns; and without ["CNAME"] among the types, all of them
    are queried. *)
Theorem break_on_accumulated_answers name (pre post : list string) (w : World S) :
  "CNAME" ∉ pre ->
  ((resolveLoop name pre [] w).1 <> [] ->
   resolved (trace (resolveLoop name (pre ++ "CNAME" :: post) [] w).2)
   = resolved (trace w) ++ pre ++ ["CNAME"])
  /\ resolved (trace (resolveLoop name pre [] w).2) = resolved (trace w) ++ pre.
Proof.
  intros Hnin. split; [|by apply resolveLoop_all].
  intros Hacc. rewrite resolveLoop_app by done.
  set (acc := (resolveLoop name pre [] w).1) in *.
  set (w1 := (resolveLoop name pre [] w).2).
  assert (Hw1 : resolved (trace w1) = resolved (trace w) ++ pre)
    by by apply resolveLoop_all.
  rewrite resolveLoop_cons. cbv zeta.
  destruct (Resolve (pool w1) (cancelled w1) name "CNAME" PriorityLow)
    as [[a err] s1]. cbn [fst snd].
  assert (Hlen : forall acc', acc' = acc \/ acc' = acc ++ a ->
            Nat.eqb (length acc') 0 = false).
  { intros acc' Hor. apply Nat.eqb_neq.
    destruct Hor as [->| ->]; rewrite ?length_app; destruct acc; simpl; try done; lia. }
  cbn [String.eqb Ascii.eqb Bool.eqb andb].
  rewrite (Hlen (match err with None => acc ++ a | Some _ => acc end))
    by (destruct err; auto).
  cbn [negb snd trace emit withPool]. rewrite resolved_app, Hw1.
  cbn [resolved omap list_omap]. by rewrite <- app_assoc.
Qed.

End RequestMore.

(** ** [performResolutions] *)

Section RunMore.
Context {S : Type} {HP : Pool S} {HC : ConfigMethods}.

Lemma step_over cfg (r : Run S) e : over cfg r = true -> step cfg r e = r.
Proof. intros Hover. unfold step. by rewrite Hover. Qed.

Lemma foldl_over cfg sch : forall r : Run S,
  over cfg r = true -> foldl (step cfg) r sch = r.
Proof.
  induction sch as [|e sch IH]; intros r Hover; [done|].
  cbn [foldl]. rewrite step_over by done. by apply IH.
Qed.

Lemma work_acquires cfg req (w : World S) :
  count isAcquire (trace (processDNSRequest (Some req) cfg w).2)
  = count isAcquire (trace w).
Proof.
  destruct (processDNSRequest_one_signal (Some req) cfg w)
    as (v & evs & -> & Hall & _).
  rewrite !count_app, (count_poolCalls _ evs) by (done || by intros []).
  unfold count. simpl. lia.
Qed.

(** X11: without names there is no run: nothing is admitted, resolved or
    received, whatever the scheduler, the timer and the bus do. *)
Theorem no_names_no_run cfg (s : S) (sch : list Sched) :
  ProvidedNames cfg = [] ->
  performResolutions cfg s sch = start cfg s.
Proof.
  intros Hnil. unfold performResolutions. apply foldl_over.
  unfold over, start. cbn. by rewrite Hnil.
Qed.

Lemma count_acquire_snoc (tr : list Event) :
  count isAcquire (tr ++ [EvAcquire]) = Datatypes.S (count isAcquire tr).
Proof. rewrite count_app. unfold count. simpl. lia. Qed.

(** What the goroutine of lines 188-199 can do in one move: nothing, a
    change of its own place, the cancellation when [done] is closed and a
    name is left, or the launch of the next name. *)
Lemma admissionStep_cases cfg (r : Run S) :
  admissionStep cfg r = r
  \/ (exists a, admissionStep cfg r = withAdmission a r)
  \/ (admissionStep cfg r = withAdmission Left (withWorld (cancel (world r)).2 r)
      /\ done r = true /\ names r <> [] /\ admission r = AtSelect)
  \/ (exists name rest,
        names r = name :: rest /\ (done r = false \/ admission r = InAcquire)
        /\ admissionStep cfg r = launch name rest r).
Proof.
  unfold admissionStep.
  destruct (admission r); destruct (names r) as [|name rest]; eauto.
  - destruct (done r); [by right; right; left|].
    destruct (ticketFree cfg r); eauto 10.
  - destruct (ticketFree cfg r); eauto 10.
Qed.

(** The names are launched in the order of the list, one per ticket
    taken. *)
Lemma order_step cfg (r : Run S) e :
  names r = drop (count isAcquire (trace (world r))) (ProvidedNames cfg)
  /\ Name <$> spawned r
       `sublist_of` take (count isAcquire (trace (world r))) (ProvidedNames cfg)
  /\ Forall (fun q => Domain q = "" /\ Records q = []) (spawned r) ->
  let r' := step cfg r e in
  names r' = drop (count isAcquire (trace (world r'))) (ProvidedNames cfg)
  /\ Name <$> spawned r'
       `sublist_of` take (count isAcquire (trace (world r'))) (ProvidedNames cfg)
  /\ Forall (fun q => Domain q = "" /\ Records q = []) (spawned r').
Proof.
  intros (Hn & Hs & Hf). cbv zeta. unfold step. destruct (over cfg r); [done|].
  assert (Hlaunch : forall name rest, names r = name :: rest ->
            let r' := launch name rest r in
            names r' = drop (count isAcquire (trace (world r'))) (ProvidedNames cfg)
            /\ Name <$> spawned r'
                 `sublist_of` take (count isAcquire (trace (world r')))
                                (ProvidedNames cfg)
            /\ Forall (fun q => Domain q = "" /\ Records q = []) (spawned r')).
  { intros name rest Hnames. cbv zeta.
    cbn [launch world names spawned acquire snd emit trace].
    rewrite count_acquire_snoc. rewrite Hnames in Hn.
    assert (Hlook : ProvidedNames cfg !! count isAcquire (trace (world r)) = Some name).
    { rewrite <- (Nat.add_0_r (count _ _)), <- lookup_drop, <- Hn. done. }
    split; [|split].
    - rewrite (drop_S _ _ _ Hlook) in Hn. by injection Hn.
    - rewrite (take_S_r _ _ _ Hlook), fmap_app. by apply sublist_app.
    - apply Forall_app. split; [done|]. by repeat constructor. }
  destruct e.
  - by destruct (Z.ltb 0 (Timeout cfg)).
  - destruct (admissionStep_cases cfg r)
      as [->|[[a ->]|[(-> & _)|(name & rest & Hnames & _ & ->)]]]; try done.
    by apply Hlaunch.
  - destruct (spawned r !! k) as [req|] eqn:Hk; [|done].
    destruct (Z.ltb _ answersCap); [|done].
    cbn [world names spawned]. rewrite work_acquires.
    split; [done|]. split.
    + rewrite list_fmap_delete. etrans; [apply sublist_delete|done].
    + by apply Forall_delete.
  - destruct (done r); [|done].
    destruct (deliver_fields SigDone r) as (-> & -> & _).
    by rewrite deliver_world.
  - destruct (deliver_fields SigTick r) as (-> & -> & _).
    by rewrite deliver_world.
  - destruct (deliver_fields SigActive r) as (-> & -> & _).
    by rewrite deliver_world.
  - destruct (answers (world r)) as [|v rest]; [done|].
    match goal with |- context [deliver ?sig ?r0] =>
      destruct (deliver_fields sig r0) as (-> & -> & _);
      rewrite (deliver_world sig r0) end.
    done.
Qed.

(** X12: the names are admitted in the order of [cfg.ProvidedNames], each
    at most once: after [n] tickets have been taken, the first [n] names
    have been launched and the others are still to come, and the
    resolutions under way are for some of those [n] names, in their order,
    each with no domain and no records yet. *)
Theorem names_admitted_in_order cfg (s : S) (sch : list Sched) :
  let r := performResolutions cfg s sch in
  let n := count isAcquire (trace (world r)) in
  names r = drop n (ProvidedNames cfg)
  /\ Name <$> spawned r `sublist_of` take n (ProvidedNames cfg)
  /\ Forall (fun q => Domain q = "" /\ Records q = []) (spawned r).
Proof.
  cbv zeta. unfold performResolutions.
  assert (Hgen : forall r : Run S,
            names r = drop (count isAcquire (trace (world r))) (ProvidedNames cfg)
            /\ Name <$> spawned r
                 `sublist_of` take (count isAcquire (trace (world r)))
                                (ProvidedNames cfg)
            /\ Forall (fun q => Domain q = "" /\ Records q = []) (spawned r) ->
            let r' := foldl (step cfg) r sch in
            names r' = drop (count isAcquire (trace (world r'))) (ProvidedNames cfg)
            /\ Name <$> spawned r'
                 `sublist_of` take (count isAcquire (trace (world r')))
                                (ProvidedNames cfg)
            /\ Forall (fun q => Domain q = "" /\ Records q = []) (spawned r')).
  { induction sch as [|e sch IH]; intros r Hr; [done|].
    cbn [foldl]. apply IH. by apply order_step. }
  apply Hgen. cbn. split; [done|]. split; [done|constructor].
Qed.

(** The tickets taken so far, and the one the goroutine of line 188 has
    still to take when it has passed its [select]. *)
Lemma timer_step cfg (r : Run S) e :
  let owed (r : Run S) :=
    count isAcquire (trace (world r))
    + match admission r with InAcquire => 1 | _ => 0 end in
  done r = true ->
  done (step cfg r e) = true /\ owed (step cfg r e) <= owed r
  /\ count isAcquire (trace (world r))
     <= count isAcquire (trace (world (step cfg r e))).
Proof.
  cbv zeta. intros Hdone. unfold step. destruct (over cfg r); [by repeat split|].
  destruct e.
  - destruct (Z.ltb 0 (Timeout cfg)); by repeat split.
  - unfold admissionStep.
    destruct (admission r) eqn:Ha; destruct (names r) as [|name rest];
      rewrite ?Hdone; try destruct (ticketFree cfg r);
      cbn [launch withAdmission withWorld world admission done acquire cancel
           snd emit trace];
      rewrite ?Ha, ?count_acquire_snoc; repeat split; try done; lia.
  - destruct (spawned r !! k) as [req|]; [|by repeat split].
    destruct (Z.ltb _ answersCap); [|by repeat split].
    cbn [world admission done]. by rewrite work_acquires.
  - rewrite Hdone. unfold deliver. by destruct (selectCase _ _).
  - unfold deliver. by destruct (selectCase _ _).
  - unfold deliver. by destruct (selectCase _ _).
  - destruct (answers (world r)) as [|v rest]; [by repeat split|].
    unfold deliver. by destruct (selectCase _ _).
Qed.

(** X13: once the timer has closed [done], at most one more name is
    admitted: the one for which the goroutine of line 188 had already
    passed its [select] and was waiting for a ticket. *)
Theorem one_admission_after_timer cfg (s : S) (before after : list Sched) :
  let r1 := performResolutions cfg s (before ++ [TimerFires]) in
  let r2 := performResolutions cfg s (before ++ TimerFires :: after) in
  done r1 = true ->
  count isAcquire (trace (world r2)) <= count isAcquire (trace (world r1)) + 1
  /\ (admission r1 <> InAcquire ->
      count isAcquire (trace (world r2)) = count isAcquire (trace (world r1))).
Proof.
  cbv zeta. unfold performResolutions.
  replace (before ++ TimerFires :: after) with ((before ++ [TimerFires]) ++ after)
    by by rewrite <- app_assoc.
  rewrite (foldl_app _ (before ++ [TimerFires]) after).
  generalize (foldl (step cfg) (start cfg s) (before ++ [TimerFires])).
  intros r1 Hdone.
  assert (Hgen : forall r : Run S, done r = true ->
            count isAcquire (trace (world r))
            <= count isAcquire (trace (world (foldl (step cfg) r after)))
            /\ count isAcquire (trace (world (foldl (step cfg) r after)))
               + match admission (foldl (step cfg) r after) with
                 | InAcquire => 1 | _ => 0 end
               <= count isAcquire (trace (world r))
                  + match admission r with InAcquire => 1 | _ => 0 end).
  { induction after as [|e after IH]; intros r Hr; [by split|].
    cbn [foldl]. destruct (timer_step cfg r e Hr) as (Hd & Ho & Hm).
    destruct (IH _ Hd) as [Hlo Hhi]. cbv zeta in Ho. split; lia. }
  destruct (Hgen r1 Hdone) as [Hlo Hhi]. split.
  - destruct (admission r1), (admission (foldl (step cfg) r1 after)); lia.
  - intros Hne.
    destruct (admission r1), (admission (foldl (step cfg) r1 after)); try done; lia.
Qed.

(** [cancel()] is the last thing the goroutine of line 188 does, and it
    does it with a name in hand. *)
Lemma cancel_step cfg (r : Run S) e :
  (cancelled (world r) = true -> admission r = Left /\ names r <> []) ->
  cancelled (world (step cfg r e)) = true ->
  admission (step cfg r e) = Left /\ names (step cfg r e) <> [].
Proof.
  intros Hinv. unfold step. destruct (over cfg r); [done|].
  destruct e.
  - by destruct (Z.ltb 0 (Timeout cfg)).
  - destruct (admissionStep_cases cfg r)
      as [->|[[a Ha]|[(-> & _ & Hne & _)|(name & rest & Hnames & _ & Hl)]]];
      [done| |done|].
    + rewrite Ha. cbn [withAdmission world names admission]. intros Hc.
      destruct (Hinv Hc) as [Hleft Hne]. split; [|done].
      revert Ha. unfold admissionStep. rewrite Hleft. intros Ha.
      by rewrite <- Hleft, Ha.
    + rewrite Hl. cbn [launch world acquire snd emit cancelled]. intros Hc.
      destruct (Hinv Hc) as [Hleft _]. revert Hl. unfold admissionStep.
      rewrite Hleft. intros Hl. exfalso.
      assert (Hadm : admission (launch name rest r) = admission r) by by rewrite <- Hl.
      cbn [launch admission] in Hadm. congruence.
  - destruct (spawned r !! k) as [req|]; [|done].
    destruct (Z.ltb _ answersCap); [|done].
    destruct (processDNSRequest_one_signal (Some req) cfg (world r))
      as (v & evs & _ & _ & _ & _ & Hcan).
    cbn [world admission names]. by rewrite Hcan.
  - destruct (done r); [|done].
    destruct (deliver_fields SigDone r) as (-> & _).
    rewrite deliver_world. unfold deliver. by destruct (selectCase _ _).
  - destruct (deliver_fields SigTick r) as (-> & _).
    rewrite deliver_world. unfold deliver. by destruct (selectCase _ _).
  - destruct (deliver_fields SigActive r) as (-> & _).
    rewrite deliver_world. unfold deliver. by destruct (selectCase _ _).
  - destruct (answers (world r)) as [|v rest]; [done|].
    match goal with |- context [deliver ?sig ?r0] =>
      destruct (deliver_fields sig r0) as (-> & _);
      rewrite (deliver_world sig r0) end.
    unfold deliver. by destruct (selectCase _ _).
Qed.

(** X14: a run whose context has been cancelled never resolves all its
    names: the goroutine of line 188 has returned with a name not yet
    admitted, after the timer closed [done], so that fewer tickets have
    been taken than there are names and [processDNSAnswers] cannot count up
    to their number; it ends by one of its [return]s. *)
Theorem cancel_leaves_names_out cfg (s : S) (sch : list Sched) :
  let r := performResolutions cfg s sch in
  cancelled (world r) = true ->
  admission r = Left /\ names r <> [] /\ done r = true
  /\ count isAcquire (trace (world r)) < length (ProvidedNames cfg)
  /\ i (detector r) < length (ProvidedNames cfg).
Proof.
  cbv zeta.
  assert (Hgen : forall r : Run S,
            (cancelled (world r) = true -> admission r = Left /\ names r <> []) ->
            cancelled (world (foldl (step cfg) r sch)) = true ->
            admission (foldl (step cfg) r sch) = Left
            /\ names (foldl (step cfg) r sch) <> []).
  { induction sch as [|e sch IH]; intros r Hr; [done|].
    cbn [foldl]. apply IH. by apply cancel_step. }
  intros Hc. destruct (Hgen (start cfg s)) as [Hleft Hne]; [done|exact Hc|].
  destruct (performResolutions_balanced cfg s sch)
    as (H1 & H2 & H3 & H4 & H5 & H6 & H7).
  fold (performResolutions cfg s sch) in Hleft, Hne.
  set (r := performResolutions cfg s sch) in *.
  assert (Hlen : 0 < length (names r)) by (destruct (names r); [done|simpl; lia]).
  repeat split; try done; [by apply H6|lia|lia].
Qed.

End RunMore.

(** ** [OverrideConfig] *)

Section ConfigMore.
Context {HU : Unicode}.










(** X16: one ["cname"] among the types, in any case of the letters and
    not in the first place, changes places with the first type and with
    no other: the types between them and behind them keep their
    places. *)
Theorem single_cname_swap (p0 c : string) (pre post : list string) :
  "CNAME" ∉ ToUpper <$> p0 :: pre -> ToUpper c = "CNAME" ->
  "CNAME" ∉ ToUpper <$> post ->
  overrideRecordTypes (p0 :: pre ++ c :: post)
  = "CNAME" :: (ToUpper <$> pre) ++ ToUpper p0 :: (ToUpper <$> post).
Proof.
  intros Hpre Hc Hpost. rewrite overrideRecordTypes_place by done.
  change (p0 :: pre ++ c :: post) with ((p0 :: pre) ++ c :: post).
  rewrite (foldl_app place (p0 :: pre) (c :: post) []).
  rewrite (foldl_place_plain (p0 :: pre) []) by done. cbn [app fmap list_fmap foldl].
  unfold place at 2. rewrite Hc. cbn [String.eqb Ascii.eqb Bool.eqb].
  rewrite foldl_place_plain by done. cbn [app]. by rewrite <- app_assoc.
Qed.

End ConfigMore.

(** ** [processDNSInputFiles] *)

Section FileFacts.
Context {T : Type}.
Variable InsertMany : T -> list string -> T.
Variable GetListFromFile : string -> list string + string.

#[local] Abbreviation readable := (readable GetListFromFile).
#[local] Abbreviation listOf := (listOf GetListFromFile).
#[local] Abbreviation insertFiles := (insertFiles InsertMany GetListFromFile).
#[local] Abbreviation processDNSInputFiles := (processDNSInputFiles InsertMany GetListFromFile).

(** One of the three loops: it reads all its files, or stops at the first
    that cannot be read, with the lists of the files before it
    inserted. *)
Lemma insertFiles_cases (set : T) (files : list string) :
  (Forall (fun f => readable f = true) files
   /\ insertFiles set files = (foldl InsertMany set (listOf <$> files), files, None))
  \/ (exists pre f post err,
        files = pre ++ f :: post
        /\ Forall (fun f => readable f = true) pre
        /\ GetListFromFile f = inr err
        /\ insertFiles set files
           = (foldl InsertMany set (listOf <$> pre), pre ++ [f], Some err)).
Proof.
  revert set. induction files as [|f files IH]; intros set; [by left|].
  cbn [Dns.insertFiles]. destruct (GetListFromFile f) as [list|err] eqn:Hf.
  - assert (Hr : readable f = true) by (unfold Dns.readable; by rewrite Hf).
    assert (Hl : listOf f = list) by (unfold Dns.listOf; by rewrite Hf).
    destruct (IH (InsertMany set list))
      as [[Hall ->]|(pre & f' & post & err & -> & Hpre & Hf' & ->)].
    + left. split; [by constructor|]. cbn [fmap list_fmap foldl]. by rewrite Hl.
    + right. exists (f :: pre), f', post, err. split; [done|].
      split; [by constructor|]. split; [done|].
      cbn [fmap list_fmap foldl app]. by rewrite Hl.
  - right. by exists [], f, files, err.
Qed.

Lemma unreadable_not_all (f : string) err (files : list string) :
  GetListFromFile f = inr err -> f ∈ files ->
  ~ Forall (fun f => readable f = true) files.
Proof.
  intros Hf Hin Hall. rewrite Forall_forall in Hall.
  specialize (Hall f Hin). unfold Dns.readable in Hall. by rewrite Hf in Hall.
Qed.

(** X17: when every file named can be read, no error is returned, each
    file has been read once, in the order blacklist, names, domains,
    resolvers, and each set has been given the lists of its own files, in
    that order; without a path to a blacklist file the blacklist is left
    as it was. *)
Theorem input_files_all_read (paths : Filepaths) (args : Inputs T) :
  Forall (fun f => readable f = true) (askedFiles paths) ->
  processDNSInputFiles paths args
  = {| sets :=
         {| inBlacklist :=
              if String.eqb (pathBlacklist paths) "" then inBlacklist args
              else InsertMany (inBlacklist args) (listOf (pathBlacklist paths));
            inNames := foldl InsertMany (inNames args) (listOf <$> pathNames paths);
            inDomains := foldl InsertMany (inDomains args) (listOf <$> pathDomains paths);
            inResolvers :=
              foldl InsertMany (inResolvers args) (listOf <$> pathResolvers paths) |};
       reads := askedFiles paths;
       failure := None |}.
Proof.
  unfold askedFiles, Dns.processDNSInputFiles, insertBlacklist.
  intros Hall. apply Forall_app in Hall as [Hbl Hall].
  apply Forall_app in Hall as [Hnames Hall].
  apply Forall_app in Hall as [Hdomains Hresolvers].
  assert (Hin : forall (f : string) l1 l2, f ∈ l1 ++ f :: l2).
  { intros f l1 l2. apply elem_of_app. right. apply list_elem_of_here. }
  assert (Hread : forall (set : T) files,
            Forall (fun f => readable f = true) files ->
            insertFiles set files
            = (foldl InsertMany set (listOf <$> files), files, None)).
  { intros set files Hfiles.
    destruct (insertFiles_cases set files)
      as [[_ ->]|(pre & f & post & err & -> & _ & Hf & _)]; [done|].
    destruct (unreadable_not_all f err _ Hf (Hin f pre post) Hfiles). }
  destruct (String.eqb (pathBlacklist paths) "").
  - cbn [inBlacklist inNames inDomains inResolvers].
    by rewrite !Hread.
  - apply Forall_cons in Hbl as [Hbl _].
    unfold Dns.readable, Dns.listOf in *.
    destruct (GetListFromFile (pathBlacklist paths)) as [list|]; [|done].
    cbn [inBlacklist inNames inDomains inResolvers].
    by rewrite !Hread.
Qed.

(** X18: the files are read in order up to the first that cannot be read,
    and no further: an error is returned exactly when one of the files
    named cannot be read, the files read are then those in front of it and
    itself, and the text of the error names the kind of the file in front
    of the error of the read.  The sets of the kinds behind it are left as
    they were. *)
Theorem input_files_stop_at_first_unreadable (paths : Filepaths) (args : Inputs T) :
  let res := processDNSInputFiles paths args in
  (failure res = None <-> Forall (fun f => readable f = true) (askedFiles paths))
  /\ reads res `prefix_of` askedFiles paths
  /\ forall text, failure res = Some text ->
       exists pre f err,
         reads res = pre ++ [f]
         /\ Forall (fun f => readable f = true) pre
         /\ GetListFromFile f = inr err
         /\ (text = Errorf "Failed to parse the blacklist file" err
               /\ f = pathBlacklist paths /\ sets res = args
             \/ text = Errorf "Failed to parse the subdomain names file" err
               /\ f ∈ pathNames paths
               /\ inDomains (sets res) = inDomains args
               /\ inResolvers (sets res) = inResolvers args
             \/ text = Errorf "Failed to parse the domain names file" err
               /\ f ∈ pathDomains paths
               /\ inResolvers (sets res) = inResolvers args
             \/ text = Errorf "Failed to parse the esolver file" err
               /\ f ∈ pathResolvers paths).
Proof.
  cbv zeta. unfold askedFiles, Dns.processDNSInputFiles, insertBlacklist.
  set (bl := if String.eqb (pathBlacklist paths) "" then []
             else [pathBlacklist paths]).
  assert (Hbl : (String.eqb (pathBlacklist paths) "" = true /\ bl = [])
                \/ (String.eqb (pathBlacklist paths) "" = false
                    /\ bl = [pathBlacklist paths])).
  { subst bl. destruct (String.eqb _ _); auto. }
  clearbody bl.
  assert (Hin : forall (f : string) l1 l2, f ∈ l1 ++ f :: l2).
  { intros f l1 l2. apply elem_of_app. right. apply list_elem_of_here. }
  destruct args as [aB aN aD aR].
  cbn [inBlacklist inNames inDomains inResolvers].
  assert (Hfirst : forall (set : T) r e,
            (if String.eqb (pathBlacklist paths) "" then (aB, [], None)
             else match GetListFromFile (pathBlacklist paths) with
                  | inl list => (InsertMany aB list, [pathBlacklist paths], None)
                  | inr err => (aB, [pathBlacklist paths], Some err)
                  end) = (set, r, e) ->
            r = bl
            /\ match e with
               | None => Forall (fun f => readable f = true) bl
               | Some err => GetListFromFile (pathBlacklist paths) = inr err
                             /\ bl = [pathBlacklist paths] /\ set = aB
               end).
  { intros set r e. destruct Hbl as [[-> ->]|[-> ->]].
    - by intros [= <- <- <-].
    - destruct (GetListFromFile (pathBlacklist paths)) as [list|err] eqn:Hf;
        intros [= <- <- <-]; [|done].
      split; [done|]. apply Forall_cons. split; [|done].
      unfold Dns.readable. by rewrite Hf. }
  destruct (if String.eqb (pathBlacklist paths) "" then _ else _)
    as [[set1 r1] e1] eqn:H1.
  destruct (Hfirst _ _ _ eq_refl) as [-> He1]. clear Hfirst H1 Hbl.
  destruct e1 as [err|].
  { destruct He1 as (Hf & -> & ->). cbn [sets reads failure].
    split; [|split].
    - split; [done|]. intros Hall.
      destruct (unreadable_not_all _ err _ Hf (Hin _ [] _) Hall).
    - by apply prefix_app_r.
    - intros text [= <-]. exists [], (pathBlacklist paths), err.
      repeat split; try done. by left. }
  destruct (insertFiles_cases aN (pathNames paths))
    as [[Hn ->]|(pre & f & post & err & -> & Hpre & Hf & ->)];
    cbn [inBlacklist inNames inDomains inResolvers sets reads failure].
  2: { split; [|split].
       - split; [done|]. intros Hall.
         exfalso. eapply (unreadable_not_all f err); [exact Hf| |exact Hall].
         rewrite !elem_of_app, elem_of_cons. auto 10.
       - exists (post ++ pathDomains paths ++ pathResolvers paths).
         by rewrite <- !app_assoc.
       - intros text [= <-]. exists (bl ++ pre), f, err.
         rewrite <- app_assoc. repeat split; try done.
         + by apply Forall_app.
         + right. left. by repeat split. }
  destruct (insertFiles_cases aD (pathDomains paths))
    as [[Hd ->]|(pre & f & post & err & -> & Hpre & Hf & ->)];
    cbn [inBlacklist inNames inDomains inResolvers sets reads failure].
  2: { split; [|split].
       - split; [done|]. intros Hall.
         exfalso. eapply (unreadable_not_all f err); [exact Hf| |exact Hall].
         rewrite !elem_of_app, elem_of_cons. auto 10.
       - exists (post ++ pathResolvers paths).
         by rewrite <- !app_assoc.
       - intros text [= <-]. exists (bl ++ pathNames paths ++ pre), f, err.
         rewrite <- !app_assoc. repeat split; try done.
         + by rewrite !Forall_app.
         + right. right. left. by repeat split. }
  destruct (insertFiles_cases aR (pathResolvers paths))
    as [[Hr ->]|(pre & f & post & err & -> & Hpre & Hf & ->)];
    cbn [inBlacklist inNames inDomains inResolvers sets reads failure].
  2: { split; [|split].
       - split; [done|]. intros Hall.
         exfalso. eapply (unreadable_not_all f err); [exact Hf| |exact Hall].
         rewrite !elem_of_app, elem_of_cons. auto 10.
       - exists post. by rewrite <- !app_assoc.
       - intros text [= <-].
         exists (bl ++ pathNames paths ++ pathDomains paths ++ pre), f, err.
         rewrite <- !app_assoc. repeat split; try done.
         + by rewrite !Forall_app.
         + right. right. right. by repeat split. }
  split; [|split]; [|done..].
  split; [|done]. intros _. by rewrite !Forall_app.
Qed.

End FileFacts.

(** ** [processRequests], [executeWhoisQuery] and [OnStart] *)

Section SourceMore.
Import Sources.
#[local] Open Scope Z_scope.
Variable IsDomainInScope : string -> bool.

Lemma requestsLoop_served w arrivals : forall st,
  (fun q => (domain q, actions q)) <$> queries (requestsLoop IsDomainInScope w st arrivals)
  = ((fun q => (domain q, actions q)) <$> queries st)
    ++ omap (served IsDomainInScope w) (beforeQuit arrivals).
Proof.
  induction arrivals as [|a arrivals IH]; intros st;
    cbn [requestsLoop beforeQuit omap list_omap].
  - by rewrite app_nil_r.
  - pose proof (eq_refl (served IsDomainInScope w a)) as Hs.
    unfold served at 2 in Hs. unfold selectCase.
    destruct (msg a) as [|d| |]; cbn [omap list_omap]; rewrite ?Hs.
    + by rewrite app_nil_r.
    + destruct (IsDomainInScope d).
      * rewrite IH. cbn [queries]. rewrite fmap_app.
        cbn [fmap list_fmap domain actions]. by rewrite <- app_assoc.
      * by rewrite IH.
    + by rewrite IH.
    + by rewrite IH.
Qed.

Lemma beforeQuit_sublist arrivals a : a ∈ beforeQuit arrivals -> a ∈ arrivals.
Proof.
  induction arrivals as [|a' arrivals IH]; cbn [beforeQuit]; [done|].
  intros Hin. assert (Hin' : a ∈ a' :: beforeQuit arrivals).
  { destruct (msg a'); try done. by apply elem_of_nil in Hin. }
  apply elem_of_cons in Hin' as [->|Hin']; [apply list_elem_of_here|].
  apply list_elem_of_further.
  apply IH. destruct (msg a'); try done.
Qed.

(** X19: the API is asked for the domains of the requests that are in
    scope and come in before the service is told to quit, once for each
    such request and in their order, also when a domain comes in twice;
    address and ASN requests and requests out of scope leave no trace. *)
Theorem queries_follow_requests (w : WhoisXML) (t0 : Z) (arrivals : list Arrival) :
  (fun q => (domain q, actions q))
    <$> queries (processRequests IsDomainInScope w t0 arrivals)
  = omap (served IsDomainInScope w) (beforeQuit arrivals).
Proof. unfold processRequests. by rewrite requestsLoop_served. Qed.

(** Every call of [executeWhoisQuery] is for a request in scope that came
    in before [Quit]. *)
Lemma query_of_arrival (w : WhoisXML) (t0 : Z) (arrivals : list Arrival) (q : Query) :
  q ∈ queries (processRequests IsDomainInScope w t0 arrivals) ->
  exists a, a ∈ arrivals /\ msg a = WhoisRequest (domain q)
            /\ IsDomainInScope (domain q) = true
            /\ actions q = executeWhoisQuery w (domain q) (reply a).
Proof.
  intros Hq.
  apply (list_elem_of_fmap_2 (fun q => (domain q, actions q))) in Hq.
  unfold processRequests in Hq. rewrite requestsLoop_served in Hq.
  cbn [queries fmap list_fmap app] in Hq.
  apply list_elem_of_omap in Hq as (a & Hin & Hs).
  exists a. split; [by apply beforeQuit_sublist|].
  unfold served in Hs. destruct (msg a) as [|d| |]; try done.
  destruct (IsDomainInScope d) eqn:Hscope; [|done].
  injection Hs as Hd Ha. rewrite <- Hd. by rewrite Hscope.
Qed.

(** The paths of [executeWhoisQuery]. *)
Lemma executeWhoisQuery_cases (w : WhoisXML) (d : string) (reply : Reply) :
  ((API w = None \/ exists k, API w = Some k /\ Key k = "")
   /\ executeWhoisQuery w d reply = [Log])
  \/ (exists k rest,
        API w = Some k /\ Key k <> ""
        /\ executeWhoisQuery w d reply
           = Post "https://reverse-whois-api.whoisxmlapi.com/api/v2" (Key k) [d] :: rest
        /\ match reply with
           | Response n l =>
               rest = if 0 <? n then [NewWhois d l (SourceType w) "WhoisXML"] else []
           | _ => rest = [Log]
           end).
Proof.
  unfold executeWhoisQuery. destruct (API w) as [k|]; [|left; auto].
  destruct (String.eqb_spec (Key k) "") as [Hk|Hk]; [left; eauto|].
  right. exists k. destruct reply; eauto.
Qed.

(** X20: [OnStart] and [executeWhoisQuery] test the key in the same way.
    With a key that is not empty, nothing is logged at the start and
    every query posts once, to the fixed address, with the key as token
    and its own domain as the one domain to include; without one, the
    start logs the lack and so does every query, which sends nothing. *)
Theorem key_checked_at_start_and_at_each_query (w : WhoisXML)
    (key : option APIKey) (t0 : Z) (arrivals : list Arrival) (q : Query) :
  let w' := (OnStart w key).1 in
  let log := (OnStart w key).2 in
  q ∈ queries (processRequests IsDomainInScope w' t0 arrivals) ->
  (log = [Log] /\ actions q = [Log])
  \/ (exists k rest,
        key = Some k /\ Key k <> "" /\ log = []
        /\ actions q
           = Post "https://reverse-whois-api.whoisxmlapi.com/api/v2" (Key k) [domain q]
               :: rest
        /\ Forall (fun a => isPost a = false) rest /\ (length rest <= 1)%nat).
Proof.
  cbv zeta. intros Hq.
  destruct (query_of_arrival _ _ _ _ Hq) as (a & _ & _ & _ & ->).
  unfold OnStart. cbn [fst snd API].
  destruct (executeWhoisQuery_cases
              {| API := key; SourceType := SourceType w; RateLimit := RateLimit w |}
              (domain q) (reply a))
    as [[Hkey ->]|(k & rest & Hk & Hne & -> & Hrest)]; cbn [API] in *.
  - left. split; [|done]. destruct Hkey as [->|(k & -> & ->)]; done.
  - right. exists k, rest. rewrite Hk.
    destruct (String.eqb_spec (Key k) "") as [|_]; [done|].
    repeat split; try done.
    + destruct (reply a) as [| |n l]; subst rest; [by repeat constructor..|].
      destruct (0 <? n); by repeat constructor.
    + destruct (reply a) as [| |n l]; subst rest; cbn; try lia.
      destruct (0 <? n); cbn; lia.
Qed.

(** X21: new domains are published only for a request in scope whose
    query was posted with a key and answered with a positive count; they
    are the list of the answer as it came, for the domain asked about, and
    the last thing the query does. *)
Theorem new_domains_only_from_positive_answers (w : WhoisXML) (t0 : Z)
    (arrivals : list Arrival) (q : Query) (d : string) (l : list string)
    (tag source : string) :
  q ∈ queries (processRequests IsDomainInScope w t0 arrivals) ->
  NewWhois d l tag source ∈ actions q ->
  d = domain q /\ IsDomainInScope d = true
  /\ tag = SourceType w /\ source = "WhoisXML"
  /\ (exists k, API w = Some k /\ Key k <> ""
                /\ actions q
                   = [Post "https://reverse-whois-api.whoisxmlapi.com/api/v2" (Key k) [d];
                      NewWhois d l tag source])
  /\ exists a n, a ∈ arrivals /\ msg a = WhoisRequest d
                 /\ reply a = Response n l /\ 0 < n.
Proof.
  intros Hq Hnew.
  destruct (query_of_arrival _ _ _ _ Hq) as (a & Hin & Hmsg & Hscope & Hact).
  rewrite Hact in *. clear Hact.
  destruct (executeWhoisQuery_cases w (domain q) (reply a))
    as [[_ Heq]|(k & rest & Hk & Hne & Heq & Hrest)]; rewrite Heq in *.
  { apply list_elem_of_singleton in Hnew. done. }
  apply elem_of_cons in Hnew as [Hnew|Hnew]; [done|].
  destruct (reply a) as [| |n l'] eqn:Hreply; subst rest;
    try (apply list_elem_of_singleton in Hnew; done).
  destruct (Z.ltb_spec 0 n) as [Hn|_]; [|by apply elem_of_nil in Hnew].
  apply list_elem_of_singleton in Hnew. injection Hnew as -> -> -> ->.
  repeat split; try done; eauto 10.
Qed.



End SourceMore.

(** ** The further properties on the scenarios *)

Ltac absent :=
  let H := fresh "Hin" in
  intros H;
  repeat (apply elem_of_cons in H as [H|H]; [discriminate H|]);
  by apply elem_of_nil in H.

(** X3 on three names: an answer with a record, a tick and a nil. *)
Lemma answers_counted_and_printed_witness :
  let req := {| Name := "mail.example.com"; Domain := "example.com";
                Records := [{| ans_Type := 1; ans_Data := "10.0.0.2" |}] |} in
  let d := {| first := false; active := true; i := 2; printed := [req] |} in
  processDNSAnswers (Scenario.cfg ["a"] Scenario.names)
    [SigAnswer (Some req); SigTick; SigAnswer None] = Waiting d
  /\ i d = 2 /\ printed d = [req].
Proof.
  intros req d.
  assert (Hw : processDNSAnswers (Scenario.cfg ["a"] Scenario.names)
                 [SigAnswer (Some req); SigTick; SigAnswer None] = Waiting d)
    by reflexivity.
  destruct (answers_counted_and_printed _ _ _ Hw) as (Hi & Hp & _).
  split; [exact Hw|]. split; [exact Hi|exact Hp].
Defined.

(** X5 on an answer with two addresses and a name server in between. *)
Lemma printLine_layout_witness :
  printLine Scenario.removeLastDot Scenario.slice Scenario.plain Scenario.plain
    Scenario.plain
    {| Name := "www.example.com"; Domain := "example.com";
       Records := [Scenario.address; Scenario.ns; Scenario.address] |}
  = Some ("[NS, A]                 www.example.com 10.0.0.1, ns1.example.com, 10.0.0.1"
          +:+ String (ascii_of_nat 10) "").
Proof.
  etrans.
  - apply (printLine_layout Scenario.removeLastDot Scenario.slice Scenario.plain
             Scenario.plain Scenario.plain _
             ["10.0.0.1"; "ns1.example.com."; "10.0.0.1"]).
    reflexivity.
  - reflexivity.
Defined.

(** X6 on a type beyond sixteen bits: as a [uint16] it is CNAME. *)
Lemma typeToName_names_witness :
  uint16 65541 = TypeCNAME /\ typeToName (uint16 65541) = "CNAME".
Proof.
  split; [|reflexivity].
  apply (proj1 (typeToName_names (uint16 65541) TypeCNAME)); [reflexivity|discriminate].
Defined.

(** X7 on [mail.example.com], queried for A. *)
Lemma sent_request_well_formed_witness :
  let r := {| Name := "mail.example.com"; Domain := "example.com";
              Records := [{| ans_Type := 1; ans_Data := "10.0.0.2" |}] |} in
  answers (processDNSRequest (Scenario.request "mail.example.com")
             (Scenario.cfg ["a"] []) Scenario.world0).2 = [Some r]
  /\ Name r <> "" /\ Domain r <> "" /\ Records r <> [] /\ printable (Some r) = [r].
Proof.
  intros r.
  assert (Hs : answers (processDNSRequest (Scenario.request "mail.example.com")
                          (Scenario.cfg ["a"] []) Scenario.world0).2
               = answers Scenario.world0 ++ [Some r]) by reflexivity.
  destruct (sent_request_well_formed _ _ _ _ Hs)
    as (req0 & _ & _ & Hname & _ & Hdom & Hrec & _ & Hprint).
  split; [exact Hs|]. split; [exact Hname|]. split; [exact Hdom|].
  split; [exact Hrec|exact Hprint].
Defined.

(** X9 on [gone.example.com], for which every query fails. *)
Lemma all_queries_failing_witness :
  let w' := (processDNSRequest (Scenario.request "gone.example.com")
               (Scenario.cfg ["a"; "mx"] []) Scenario.world0).2 in
  answers w' = [None] /\ resolved (trace w') = ["A"; "MX"].
Proof.
  intros w'.
  pose proof (all_queries_failing (Scenario.named "gone.example.com")
                (Scenario.cfg ["a"; "mx"] []) Scenario.world0) as Hall.
  cbv zeta in Hall.
  destruct Hall as [Ha Ht];
    [discriminate|discriminate|reflexivity|reflexivity
    |intros s ctx t; vm_compute; discriminate|].
  split; [exact Ha|]. exact (f_equal resolved Ht).
Defined.

(** X10 on [www.example.com] and the types [A, CNAME, MX]: the address
    makes the loop leave behind CNAME, MX is not queried. *)
Lemma break_on_accumulated_answers_witness :
  resolved (trace (resolveLoop "www.example.com" (["A"] ++ "CNAME" :: ["MX"]) []
                     Scenario.world0).2)
  = ["A"; "CNAME"].
Proof.
  destruct (break_on_accumulated_answers "www.example.com" ["A"] ["MX"]
              Scenario.world0) as [Hbreak _]; [absent|].
  apply Hbreak. vm_compute. discriminate.
Defined.

(** X11 on a command without names. *)
Lemma no_names_no_run_witness :
  performResolutions (Scenario.cfg ["a"] []) 0 [AdmitNext; OnTick; OnTick]
  = start (Scenario.cfg ["a"] []) 0.
Proof. apply no_names_no_run. reflexivity. Defined.

(** X13 on three names and a timer that fires after the first
    admission: the goroutine is at its [select], no further name is
    admitted. *)
Lemma one_admission_after_timer_witness :
  count isAcquire
    (trace (world (performResolutions (Scenario.timed ["a"] Scenario.names 1) 0
                     ([AdmitNext] ++ TimerFires :: [AdmitNext; Work 0; AdmitNext]))))
  = 1.
Proof.
  destruct (one_admission_after_timer (Scenario.timed ["a"] Scenario.names 1) 0
              [AdmitNext] [AdmitNext; Work 0; AdmitNext]) as [_ Hsame];
    [reflexivity|].
  etrans; [apply Hsame|reflexivity]. vm_compute. discriminate.
Defined.

(** X14 on the same run. *)
Lemma cancel_leaves_names_out_witness :
  let r := performResolutions (Scenario.timed ["a"] Scenario.names 1) 0
             [AdmitNext; TimerFires; AdmitNext; Work 0; OnAnswer] in
  cancelled (world r) = true /\ admission r = Left
  /\ count isAcquire (trace (world r)) < 3 /\ i (detector r) < 3.
Proof.
  intros r.
  assert (Hc : cancelled (world r) = true) by reflexivity.
  destruct (cancel_leaves_names_out (Scenario.timed ["a"] Scenario.names 1) 0
              [AdmitNext; TimerFires; AdmitNext; Work 0; OnAnswer] Hc)
    as (Hleft & _ & _ & Hacq & Hi).
  split; [exact Hc|]. split; [exact Hleft|]. split; [exact Hacq|exact Hi].
Defined.


(** X16 on [-t a,mx,cName,txt]. *)
Lemma single_cname_swap_witness :
  overrideRecordTypes ("a" :: ["mx"] ++ "cName" :: ["txt"])
  = ["CNAME"; "MX"; "A"; "TXT"].
Proof.
  apply (single_cname_swap "a" "cName" ["mx"] ["txt"]); [absent|reflexivity|absent].
Defined.

(** X17 on the directory of the scenario, the names file given twice. *)
Lemma input_files_all_read_witness :
  processDNSInputFiles Scenario.insertMany Scenario.directory
    (Scenario.paths ["names.txt"; "names.txt"]) Scenario.noInputs
  = {| sets :=
         {| inBlacklist := ["blocked.example.com"];
            inNames := ["www.example.com"; "mail.example.com";
                        "www.example.com"; "mail.example.com"];
            inDomains := ["example.com"];
            inResolvers := [] |};
       reads := ["bl.txt"; "names.txt"; "names.txt"; "domains.txt"];
       failure := None |}.
Proof.
  etrans; [apply input_files_all_read|reflexivity].
  repeat (apply List.Forall_cons; [reflexivity|]). apply List.Forall_nil.
Defined.

(** X18 with a names file that does not exist between two that do: the
    blacklist and the first names file have been taken in, the domains
    file has not been asked for. *)
Lemma input_files_stop_at_first_unreadable_witness :
  let res := processDNSInputFiles Scenario.insertMany Scenario.directory
               (Scenario.paths ["names.txt"; "more.txt"; "names.txt"])
               Scenario.noInputs in
  failure res = Some "Failed to parse the subdomain names file: no such file"
  /\ reads res = ["bl.txt"; "names.txt"; "more.txt"]
  /\ exists pre f err, reads res = pre ++ [f] /\ Scenario.directory f = inr err.
Proof.
  intros res.
  assert (Hfail : failure res
                  = Some "Failed to parse the subdomain names file: no such file")
    by reflexivity.
  destruct (input_files_stop_at_first_unreadable Scenario.insertMany
              Scenario.directory
              (Scenario.paths ["names.txt"; "more.txt"; "names.txt"])
              Scenario.noInputs) as (_ & _ & Hstop).
  destruct (Hstop _ Hfail) as (pre & f & err & Hreads & _ & Hf & _).
  split; [exact Hfail|]. split; [reflexivity|]. exists pre, f, err.
  split; [exact Hreads|exact Hf].
Defined.

(** X20 and X21 on the requests of the scenario, with a key: the first
    query posts with the key and publishes the domain found. *)
Lemma key_checked_at_start_and_at_each_query_witness :
  let q := {| Sources.domain := "example.com";
              Sources.actions :=
                [Sources.Post "https://reverse-whois-api.whoisxmlapi.com/api/v2"
                   "secret" ["example.com"];
                 Sources.NewWhois "example.com" ["example.net"] "api" "WhoisXML"];
              Sources.started := 1700000001000000000;
              Sources.ended := 1700000003000000000 |} in
  Sources.queries
    (Sources.processRequests Scenario.inScope (Scenario.whoisxml (Some Scenario.key))
       1700000000000000000 Scenario.arrivals) !! 0 = Some q
  /\ exists k rest,
       Sources.Key k <> ""
       /\ Sources.actions q
          = Sources.Post "https://reverse-whois-api.whoisxmlapi.com/api/v2"
              (Sources.Key k) [Sources.domain q] :: rest
       /\ length rest <= 1.
Proof.
  intros q.
  assert (Hq : Sources.queries
                 (Sources.processRequests Scenario.inScope
                    (Scenario.whoisxml (Some Scenario.key))
                    1700000000000000000 Scenario.arrivals) !! 0 = Some q)
    by reflexivity.
  split; [exact Hq|].
  destruct (key_checked_at_start_and_at_each_query Scenario.inScope
              (Sources.NewWhoisXML "api") (Some Scenario.key)
              1700000000000000000 Scenario.arrivals q
              (list_elem_of_lookup_2 _ _ _ Hq))
    as [[Hlog _]|(k & rest & _ & Hk & _ & Hact & _ & Hlen)]; [discriminate Hlog|].
  exists k, rest. split; [exact Hk|]. split; [exact Hact|exact Hlen].
Defined.

Lemma new_domains_only_from_positive_answers_witness :
  exists a n,
    a ∈ Scenario.arrivals /\ Sources.msg a = Sources.WhoisRequest "example.com"
    /\ Sources.reply a = Sources.Response n ["example.net"] /\ (0 < n)%Z.
Proof.
  pose (q := {| Sources.domain := "example.com";
                Sources.actions :=
                  [Sources.Post "https://reverse-whois-api.whoisxmlapi.com/api/v2"
                     "secret" ["example.com"];
                   Sources.NewWhois "example.com" ["example.net"] "api" "WhoisXML"];
                Sources.started := 1700000001000000000;
                Sources.ended := 1700000003000000000 |}).
  assert (Hq : Sources.queries
                 (Sources.processRequests Scenario.inScope
                    (Scenario.whoisxml (Some Scenario.key))
                    1700000000000000000 Scenario.arrivals) !! 0 = Some q)
    by reflexivity.
  destruct (new_domains_only_from_positive_answers Scenario.inScope
              (Scenario.whoisxml (Some Scenario.key)) 1700000000000000000
              Scenario.arrivals q "example.com" ["example.net"] "api" "WhoisXML"
              (list_elem_of_lookup_2 _ _ _ Hq))
    as (_ & _ & _ & _ & _ & Hex).
  - apply list_elem_of_further, list_elem_of_here.
  - exact Hex.
Defined.

